(** * XML-to-model binding of the BoardGameGeek SDK

    A shallow embedding of [src/bgg/models/bgg.py]: the lookup strategies
    ([XMLLookupStrategy]), the validator of [JsonValue], the field
    constructor [XMLField], the per-field extraction ([_get_xml_value]),
    the binder ([BGGBaseModel.from_xml]) and the list binder
    ([BGGBaseList.base_cls] and [BGGBaseList.validate_xml]); of
    [src/bgg/utils/retry.py], [src/bgg/clients/base.py] and
    [src/bgg/utils/cache.py]; followed by the properties the specification
    states about them.

    Conventions.
    - A Python [str] is a sequence of Unicode code points: [list N].
    - [xml.etree.ElementTree.Element] is a tree with a tag, an attribute
      dictionary, an optional text and its children in document order.
    - [find], [findtext] and [findall] read their argument as ElementTree
      does: a plain name is compared with the tags of the direct children,
      anything else is an ElementPath expression.
    - Exceptions are values of a sum type; the log written through
      [logger.warning] is a list of messages; the clock read by a
      [default_factory] is an explicit input; the depth of the Python
      stack is a number of calls left. *)

From Stdlib Require Import NArith ZArith List String Ascii Lia DecimalString.
From Stdlib Require QArith_base.
From stdpp Require Import base option list gmap.

Local Open Scope N_scope.
Local Set Warnings "-register-all".

(** ** Python strings *)

Abbreviation str := (list N).

(** An ASCII literal as a Python string. *)
Definition lit (s : string) : str :=
  map N_of_ascii (list_ascii_of_string s).
Arguments lit s%_string.

(** [str.isspace] on one code point (CPython's [_PyUnicode_IsWhitespace]). *)
Definition isspace (c : N) : bool :=
  ((9 <=? c) && (c <=? 13)) || ((28 <=? c) && (c <=? 32))
  || (c =? 133) || (c =? 160) || (c =? 5760)
  || ((8192 <=? c) && (c <=? 8202))
  || (c =? 8232) || (c =? 8233) || (c =? 8239) || (c =? 8287)
  || (c =? 12288).

Fixpoint lstrip (s : str) : str :=
  match s with
  | c :: rest => if isspace c then lstrip rest else s
  | [] => []
  end.

Definition rstrip (s : str) : str := rev (lstrip (rev s)).

(** [s.strip()] with no argument. *)
Definition strip (s : str) : str := rstrip (lstrip s).

(** Truth value of a string in a condition: non-empty. *)
Definition truthy (s : str) : bool :=
  match s with [] => false | _ :: _ => true end.

(** [a or b] where [a] may be [None]. *)
Definition py_or (a : option str) (b : str) : str :=
  match a with
  | Some s => if truthy s then s else b
  | None => b
  end.

(** ** ElementTree *)

Inductive Element : Type := mkElement {
  tag : str;
  attrib : gmap str str;
  text : option str;
  children : list Element
}.

Module ET.

(** [elem.get(key)]. *)
Definition get (elem : Element) (key : str) : option str :=
  attrib elem !! key.

(** The characters by which [checkpath] tells a path from a name:
    [/ * [ @ = .] *)
Definition PATHCHAR (ch : N) : bool :=
  (ch =? 47) || (ch =? 42) || (ch =? 91) || (ch =? 64) || (ch =? 61)
  || (ch =? 46).

(** The scan of [checkpath]: a path character counts unless it stands
    between [{] and [}]. *)
Fixpoint checkpath_scan (check : bool) (tag_ : str) : bool :=
  match tag_ with
  | [] => false
  | ch :: rest =>
      if ch =? 123 then checkpath_scan false rest
      else if ch =? 125 then checkpath_scan true rest
      else if check && PATHCHAR ch then true
      else checkpath_scan check rest
  end.

(** [checkpath] of the accelerator of ElementTree: whether the argument
    of [find], [findtext] or [findall] is handed to [ElementPath]. The
    wildcards [{}tag] and [{*}tag] are. *)
Definition checkpath (tag_ : str) : bool :=
  match tag_ with
  | c0 :: c1 :: c2 :: _ =>
      if (c0 =? 123) && ((c1 =? 125) || ((c1 =? 42) && (c2 =? 125)))
      then true
      else checkpath_scan true tag_
  | _ => checkpath_scan true tag_
  end.

(** The steps of a path that are covered here: a child of a given name,
    [*] and [.]. *)
Inductive Step : Type :=
  | Child (name : str)
  | Star
  | Self.

(** The characters that cannot start a name in a path here: the path
    characters, those of a prefix, a predicate, a namespace or a quoted
    string, and white space. *)
Definition special (ch : N) : bool :=
  PATHCHAR ch || (ch =? 58) || (ch =? 93) || (ch =? 40) || (ch =? 41)
  || (ch =? 33) || (ch =? 39) || (ch =? 34) || (ch =? 123) || (ch =? 125)
  || isspace ch.

(** The characters a name goes on with: the tokenizer of [ElementPath]
    takes [.] and [*] into a name that has started. *)
Definition name_char (ch : N) : bool :=
  negb (special ch) || (ch =? 46) || (ch =? 42).

(** The path cut at each [/]. *)
Fixpoint split_slash (path segment : str) : list str :=
  match path with
  | [] => [segment]
  | ch :: rest =>
      if ch =? 47 then segment :: split_slash rest []
      else split_slash rest (segment ++ [ch])
  end.

(** The step a segment stands for, if it is one of those covered. *)
Definition prepare (segment : str) : option Step :=
  match segment with
  | [] => None
  | [42] => Some Star
  | [46] => Some Self
  | ch :: rest =>
      if negb (special ch) && forallb name_char rest
      then Some (Child segment) else None
  end.

(** [prepare_child], [prepare_star] and [prepare_self]: what a step
    selects from the elements the steps before it selected. *)
Definition select (result : list Element) (step : Step) : list Element :=
  match step with
  | Child name =>
      result ≫= (λ elem, filter (λ e, tag e = name) (children elem))
  | Star => result ≫= children
  | Self => result
  end.

(** [ElementPath.iterfind] on the paths made of the steps above, as a
    list: a final [/] stands for [/*], and the steps select in turn,
    from the element itself. The rest of the path language ([..], [//],
    predicates, prefixes and namespaces) and the paths [ElementPath]
    refuses with an exception, such as one that starts with [/], are not
    covered: nothing is selected for them here. *)
Definition ElementPath_iterfind (elem : Element) (path : str) : list Element :=
  let path := if bool_decide (last path = Some 47) then path ++ [42] else path in
  if bool_decide (head path = Some 47) then []
  else
    match mapM prepare (split_slash path []) with
    | Some steps => foldl select [elem] steps
    | None => []
    end.

(** [elem.iterfind(path)], as a list: for a plain name the direct
    children of that tag, in document order; otherwise what
    [ElementPath] selects. *)
Definition iterfind (elem : Element) (path : str) : list Element :=
  if checkpath path
  then ElementPath_iterfind elem path
  else filter (λ child, tag child = path) (children elem).

(** [elem.findall(path)]. *)
Definition findall (elem : Element) (path : str) : list Element :=
  iterfind elem path.

(** [elem.find(path)]: the first match or [None]. *)
Definition find (elem : Element) (path : str) : option Element :=
  head (iterfind elem path).

(** [elem.findtext(path)]: the text of the first match, the empty string
    when that element has no text, [None] when nothing matches. *)
Definition findtext (elem : Element) (path : str) : option str :=
  match head (iterfind elem path) with
  | Some child =>
      match text child with
      | None => Some []
      | Some t => Some t
      end
  | None => None
  end.

End ET.

(** ** Lookup strategies *)

Inductive XMLLookupStrategy : Type :=
  | ATTRIBUTE
  | TEXT
  | FIND
  | FINDALL
  | AUTO.

#[global] Instance XMLLookupStrategy_eq_dec : EqDecision XMLLookupStrategy.
Proof. solve_decision. Defined.

(** The value of each member of the [StrEnum]. *)
Definition strategy_value (s : XMLLookupStrategy) : str :=
  match s with
  | ATTRIBUTE => lit "attribute"
  | TEXT => lit "text"
  | FIND => lit "find"
  | FINDALL => lit "findall"
  | AUTO => lit "auto"
  end.

Definition all_strategies : list XMLLookupStrategy :=
  [ATTRIBUTE; TEXT; FIND; FINDALL; AUTO].

(** What [_get_xml_value] returns when it does not return [None]. *)
Inductive XmlValue : Type :=
  | VStr (s : str)
  | VElem (e : Element)
  | VElems (l : list Element).

(** [BGGBaseModel._get_xml_value]. *)
Definition _get_xml_value (xml_elem : Element) (tag_ : str)
    (strategy : XMLLookupStrategy) : option XmlValue :=
  match strategy with
  | ATTRIBUTE => VStr <$> ET.get xml_elem tag_
  | TEXT => VStr <$> ET.findtext xml_elem tag_
  | FIND =>
      match ET.find xml_elem tag_ with
      | None => None
      | Some elem =>
          match attrib elem !! lit "value" with
          | Some v => Some (VStr v)
          | None => VStr <$> text elem
          end
      end
  | FINDALL =>
      match ET.findall xml_elem tag_ with
      | [] => None
      | elements => Some (VElems elements)
      end
  | AUTO =>
      match ET.get xml_elem tag_ with
      | Some v => Some (VStr v)
      | None =>
          match ET.find xml_elem tag_ with
          | Some elem =>
              match attrib elem !! lit "value" with
              | Some v => Some (VStr v)
              | None =>
                  match text elem with
                  | Some t =>
                      if truthy t && truthy (strip t)
                      then Some (VStr (strip t))
                      else Some (VElem elem)
                  | None => Some (VElem elem)
                  end
              end
          | None =>
              match ET.findtext xml_elem tag_ with
              | Some t =>
                  if truthy (strip t) then Some (VStr (strip t)) else None
              | None =>
                  match ET.findall xml_elem tag_ with
                  | [] => None
                  | elements => Some (VElems elements)
                  end
              end
          end
      end
  end.

(** ** Validated values, errors and exceptions *)

(** The state outside the program that a [default_factory] may read: the
    successive readings of the clock, and how many were taken so far. *)
Record World : Type := mkWorld {
  readings : nat → Z;
  position : nat
}.

(** Values of validated fields. *)
Inductive PyValue : Type :=
  | PNone
  | PBool (b : bool)
  | PInt (z : Z)
  | PStr (s : str)
  | PDatetime (t : Z)
  | PList (l : list PyValue)
  | PDict (d : list (str * PyValue))
  | PModel (fields : list (str * PyValue)).

(** One line of a [pydantic.ValidationError]. *)
Inductive ErrorDetail : Type :=
  | Missing (loc : str)
  | InvalidType (loc : str) (input : XmlValue).

(** The exceptions the binder raises. *)
Inductive PyError : Type :=
  | RecursionError
  | ValidationError (errors : list ErrorDetail)
  | TypeError (msg : str).

(** ** [JsonValue] and [JsonDict] *)

(** The plain data handed to [JsonValue.model_validate], without floats,
    which no lookup reads. *)
Inductive JsonValue : Type :=
  | JNone
  | JBool (b : bool)
  | JInt (z : Z)
  | JStr (s : str)
  | JList (l : list JsonValue)
  | JDict (d : list (str * JsonValue)).

(** [sys.getrecursionlimit()], in validations of a [JsonValue] rather
    than in frames. *)
Definition recursion_limit : nat := 1000.

(** [JsonValue.model_validate(data)] with [depth] calls left on the
    stack. The [before] validator [validate_plain_value] (lines 48-62)
    puts a scalar or the validated items of a list under [value], leaves
    [data_dict] empty for a dict, and ends in a call of [cls] on the
    entries of [data_dict] (line 62), which validates [data_dict] as a
    [JsonValue] again, through the same validator. When no call is left, Python raises
    [RecursionError]. *)
Fixpoint validate_plain_value (depth : nat) (data : JsonValue)
    : PyError + JsonValue :=
  match depth with
  | O => inl RecursionError
  | S depth =>
      let data_dict : PyError + list (str * JsonValue) :=
        match data with
        | JList items =>
            match
              (fix each (l : list JsonValue) : PyError + list JsonValue :=
                 match l with
                 | [] => inr []
                 | item :: rest =>
                     match validate_plain_value depth item with
                     | inl err => inl err
                     | inr v =>
                         match each rest with
                         | inl err => inl err
                         | inr vs => inr (v :: vs)
                         end
                     end
                 end) items
            with
            | inl err => inl err
            | inr vs => inr [(lit "value", JList vs)]
            end
        | JDict _ => inr []
        | _ => inr [(lit "value", data)]
        end in
      match data_dict with
      | inl err => inl err
      | inr d => validate_plain_value depth (JDict d)
      end
  end.

(** [JsonValue.model_validate(data)]. *)
Definition JsonValue_model_validate (data : JsonValue) : PyError + JsonValue :=
  validate_plain_value recursion_limit data.

(** [JsonDict.model_validate(d)] for a dict [d]: [JsonDict] is a
    [SimpleDict[str, JsonValue]], whose values are validated as
    [JsonValue] one after the other. *)
Fixpoint JsonDict_model_validate (d : list (str * JsonValue))
    : PyError + list (str * JsonValue) :=
  match d with
  | [] => inr []
  | (key, v) :: rest =>
      match JsonValue_model_validate v with
      | inl err => inl err
      | inr v' =>
          match JsonDict_model_validate rest with
          | inl err => inl err
          | inr rest' => inr ((key, v') :: rest')
          end
      end
  end.

(** [d.get(key)]. *)
Definition dict_get (key : str) (d : list (str * JsonValue))
    : option JsonValue :=
  match list_find (λ kv : str * JsonValue, kv.1 = key) d with
  | Some (_, kv) => Some kv.2
  | None => None
  end.

(** [d[key] = v]. *)
Fixpoint dict_set (key : str) (v : JsonValue) (d : list (str * JsonValue))
    : list (str * JsonValue) :=
  match d with
  | [] => [(key, v)]
  | (k, old) :: rest =>
      if decide (k = key) then (k, v) :: rest
      else (k, old) :: dict_set key v rest
  end.

(** ** Field descriptors *)

Inductive FieldDefault : Type :=
  | PydanticUndefined
  | DefaultValue (v : PyValue)
  | DefaultFactory (f : World → PyValue * World).

(** [pydantic.fields.FieldInfo], as far as the binder and the validator
    read it. [json_schema_extra] is the dict the field was declared
    with, [None] when it was declared with none or with a callable.
    [annotation] is the validator of the declared type: the coerced
    value, or [None] when the input cannot be coerced. *)
Record FieldInfo : Type := mkFieldInfo {
  alias : option str;
  json_schema_extra : option (list (str * JsonValue));
  field_default : FieldDefault;
  annotation : XmlValue → option PyValue
}.

(** [cls.model_fields]: field name to descriptor, in declaration order. *)
Abbreviation ModelFields := (list (str * FieldInfo)).

(** [XMLField(lookup_strategy=..., xml_tag=..., **kwargs)] (lines
    69-86). [extra] is the [json_schema_extra] among [kwargs], empty
    when there is none; the other arguments of [Field] are [alias_],
    [default_] and [annotation_]. *)
Definition XMLField (lookup_strategy : XMLLookupStrategy)
    (xml_tag : option str) (extra : list (str * JsonValue))
    (alias_ : option str) (default_ : FieldDefault)
    (annotation_ : XmlValue → option PyValue) : PyError + FieldInfo :=
  match JsonDict_model_validate extra with
  | inl err => inl err
  | inr json_schema_extra =>
      match JsonValue_model_validate (JStr (strategy_value lookup_strategy)) with
      | inl err => inl err
      | inr strategy =>
          let json_schema_extra :=
            dict_set (lit "xml_lookup_strategy") strategy json_schema_extra in
          let with_tag : PyError + list (str * JsonValue) :=
            match xml_tag with
            | Some t =>
                if truthy t
                then match JsonValue_model_validate (JStr t) with
                     | inl err => inl err
                     | inr v => inr (dict_set (lit "xml_tag") v json_schema_extra)
                     end
                else inr json_schema_extra
            | None => inr json_schema_extra
            end in
          match with_tag with
          | inl err => inl err
          | inr json_schema_extra =>
              inr (mkFieldInfo alias_ (Some json_schema_extra) default_
                     annotation_)
          end
      end
  end.

(** ** The enum constructor *)

Inductive ValueError : Type := NotAValidStrategy (token : JsonValue).

(** [XMLLookupStrategy(token)]: the member whose value equals the token,
    else [ValueError]. Only a string can equal a member's value. *)
Definition XMLLookupStrategy_call (token : JsonValue)
    : ValueError + XMLLookupStrategy :=
  match token with
  | JStr s =>
      match list_find (λ m, strategy_value m = s) all_strategies with
      | Some (_, m) => inr m
      | None => inl (NotAValidStrategy token)
      end
  | _ => inl (NotAValidStrategy token)
  end.

(** ** The binder: extraction phase of [from_xml] *)

(** The condition of line 119: the field carries a dict that is not
    empty. *)
Definition has_schema_extra (field_info : FieldInfo) : bool :=
  match json_schema_extra field_info with
  | Some (_ :: _) => true
  | _ => false
  end.

(** Lines 115-124: the [xml_tag] and the strategy token of a field. The
    dict of a field that carries one is validated as a [JsonDict] first
    (line 120); [xml_tag], which [XMLField] declares [str | None], is
    read as a string. *)
Definition xml_metadata (field_info : FieldInfo)
    : PyError + (option str * JsonValue) :=
  match json_schema_extra field_info with
  | Some (entry :: entries) =>
      match JsonDict_model_validate (entry :: entries) with
      | inl err => inl err
      | inr json_schema_extra =>
          inr (match dict_get (lit "xml_tag") json_schema_extra with
               | Some (JStr t) => Some t
               | _ => None
               end,
               default (JStr (strategy_value AUTO))
                 (dict_get (lit "xml_lookup_strategy") json_schema_extra))
      end
  | _ => inr (None, JStr (strategy_value AUTO))
  end.

(** Lines 126-129: [try: XMLLookupStrategy(...) except ValueError: AUTO]. *)
Definition resolve_strategy (token : JsonValue) : XMLLookupStrategy :=
  match XMLLookupStrategy_call token with
  | inr s => s
  | inl _ => AUTO
  end.

(** Line 132: [xml_tag or field_info.alias or field_name]; the result is
    a string, which lines 133-134 leave as it is. *)
Definition resolve_tag (xml_tag : option str) (field_name : str)
    (field_info : FieldInfo) : str :=
  py_or xml_tag (py_or (alias field_info) field_name).

(** The message of line 143. *)
Definition missing_field_warning (tag_ : str) (xml_elem : Element) : str :=
  lit "Missing field '" ++ tag_ ++ lit "' in XML element " ++ tag xml_elem.

(** The state of the loop of [from_xml]: [full_dict] and the log. *)
Record BindState : Type := mkBindState {
  full_dict : gmap str XmlValue;
  warnings : list str
}.

(** One iteration of the loop of [from_xml] (lines 113-143). *)
Definition bind_field (xml_elem : Element) (st : BindState)
    (item : str * FieldInfo) : PyError + BindState :=
  match xml_metadata item.2 with
  | inl err => inl err
  | inr (xml_tag, token) =>
      let lookup_strategy := resolve_strategy token in
      let tag_ := resolve_tag xml_tag item.1 item.2 in
      match _get_xml_value xml_elem tag_ lookup_strategy with
      | Some value =>
          inr {| full_dict := <[tag_ := value]> (full_dict st);
                 warnings := warnings st |}
      | None =>
          if bool_decide (lookup_strategy ≠ AUTO)
          then inr {| full_dict := full_dict st;
                      warnings :=
                        warnings st ++ [missing_field_warning tag_ xml_elem] |}
          else inr st
      end
  end.

(** The loop over the fields from a given state: the state it reaches,
    and the exception that ended it, if one did. *)
Fixpoint bind_fields (xml_elem : Element) (st : BindState)
    (model_fields : ModelFields) : BindState * option PyError :=
  match model_fields with
  | [] => (st, None)
  | item :: rest =>
      match bind_field xml_elem st item with
      | inl err => (st, Some err)
      | inr st' => bind_fields xml_elem st' rest
      end
  end.

(** The whole loop, from the empty dictionary. *)
Definition bind (xml_elem : Element) (model_fields : ModelFields)
    : BindState * option PyError :=
  bind_fields xml_elem {| full_dict := ∅; warnings := [] |} model_fields.

(** ** The validator: [cls.model_validate(full_dict)]

    pydantic's validation of a dictionary against the fields of a model,
    under its default configuration: each field is looked up under its
    alias (its name when it has none), a present value goes through the
    validator of the field's type, an absent one takes the default or the
    result of the default factory, keys that belong to no field are
    ignored, and all failures are reported together. *)

(** A validated model instance: field name to value, in declaration
    order. *)
Abbreviation ModelInstance := (list (str * PyValue)).

Definition validation_key (field_name : str) (field_info : FieldInfo) : str :=
  match alias field_info with
  | Some a => a
  | None => field_name
  end.

Definition validate_field (data : gmap str XmlValue) (item : str * FieldInfo)
    (w : World) : (ErrorDetail + PyValue) * World :=
  let key := validation_key item.1 item.2 in
  match data !! key with
  | Some input =>
      match annotation item.2 input with
      | Some v => (inr v, w)
      | None => (inl (InvalidType key input), w)
      end
  | None =>
      match field_default item.2 with
      | DefaultValue v => (inr v, w)
      | DefaultFactory f => let '(v, w') := f w in (inr v, w')
      | PydanticUndefined => (inl (Missing key), w)
      end
  end.

Fixpoint validate_fields (data : gmap str XmlValue) (fields : ModelFields)
    (w : World) : (list ErrorDetail * ModelInstance) * World :=
  match fields with
  | [] => (([], []), w)
  | item :: rest =>
      let '(r, w1) := validate_field data item w in
      let '((errors, values), w2) := validate_fields data rest w1 in
      match r with
      | inl e => ((e :: errors, values), w2)
      | inr v => ((errors, (item.1, v) :: values), w2)
      end
  end.

Definition model_validate (fields : ModelFields) (data : gmap str XmlValue)
    (w : World) : (PyError + ModelInstance) * World :=
  let '((errors, values), w') := validate_fields data fields w in
  match errors with
  | [] => (inr values, w')
  | _ :: _ => (inl (ValidationError errors), w')
  end.

(** ** [from_xml] *)

(** What a call leaves behind: the warnings it logged, the value it
    returned or the exception it raised, and the world. *)
Record Outcome (A : Type) : Type := mkOutcome {
  logged : list str;
  returned : PyError + A;
  world_after : World
}.
Arguments mkOutcome {A} _ _ _.
Arguments logged {A} _.
Arguments returned {A} _.
Arguments world_after {A} _.

(** [BGGBaseModel.from_xml] for the class whose fields are [model_fields]. *)
Definition from_xml (model_fields : ModelFields) (xml_elem : Element)
    (w : World) : Outcome ModelInstance :=
  match bind xml_elem model_fields with
  | (st, Some err) => mkOutcome (warnings st) (inl err) w
  | (st, None) =>
      let '(validated_model, w') :=
        model_validate model_fields (full_dict st) w in
      mkOutcome (warnings st) validated_model w'
  end.

(** ** [BGGBaseList] *)

(** A core schema of pydantic: a dict, of which the entries [base_cls]
    reads are kept, each [None] when the dict has no such key. A class
    stands for its fields. *)
Inductive CoreSchema : Type := mkCoreSchema {
  get_cls : option ModelFields;
  get_schema : option CoreSchema;
  get_items_schema : option CoreSchema
}.

(** A subclass of [BGGBaseList]. *)
Record ListClass : Type := mkListClass {
  __name__ : str;
  __pydantic_core_schema__ : CoreSchema
}.

(** [BGGBaseList.base_cls] (lines 206-220). *)
Definition base_cls (cls : ListClass) : PyError + ModelFields :=
  let core_schema := __pydantic_core_schema__ cls in
  match get_schema core_schema with
  | None => inl (TypeError (lit "Schema not found for " ++ __name__ cls))
  | Some schema =>
      match get_items_schema schema with
      | None =>
          inl (TypeError (lit "Items schema not found for " ++ __name__ cls))
      | Some items_schema =>
          match get_cls items_schema with
          | None =>
              inl (TypeError (lit "Base class not found for " ++ __name__ cls))
          | Some base_cls => inr base_cls
          end
      end
  end.

(** [cls.base_cls().from_xml(item)], the element of the comprehension of
    line 226. *)
Definition base_cls_from_xml (cls : ListClass) (item : Element) (w : World)
    : Outcome ModelInstance :=
  match base_cls cls with
  | inl err => mkOutcome [] (inl err) w
  | inr base => from_xml base item w
  end.

(** The comprehension of line 226: one element for every item, in
    order; the first exception ends it. *)
Fixpoint from_xml_each (cls : ListClass) (data : list Element)
    (w : World) : Outcome (list ModelInstance) :=
  match data with
  | [] => mkOutcome [] (inr []) w
  | item :: rest =>
      let o := base_cls_from_xml cls item w in
      match returned o with
      | inl err => mkOutcome (logged o) (inl err) (world_after o)
      | inr m =>
          let os := from_xml_each cls rest (world_after o) in
          mkOutcome (logged o ++ logged os)
            (match returned os with
             | inl err => inl err
             | inr ms => inr (m :: ms)
             end)
            (world_after os)
      end
  end.

(** What the [before] validator hands on: the bound instances, or its
    argument as it came. *)
Inductive ListData : Type :=
  | Instances (l : list ModelInstance)
  | Raw (data : XmlValue).

(** [BGGBaseList.validate_xml] (lines 222-227). *)
Definition validate_xml (cls : ListClass) (data : XmlValue)
    (w : World) : Outcome ListData :=
  match data with
  | VElems l =>
      let o := from_xml_each cls l w in
      mkOutcome (logged o)
        (match returned o with
         | inl err => inl err
         | inr ms => inr (Instances ms)
         end)
        (world_after o)
  | _ => mkOutcome [] (inr (Raw data)) w
  end.

(** The core schema pydantic builds for a class [L(BGGBaseList[M])]: the
    schema of the model [L]; inside it the schema of its [before]
    validator [validate_xml]; inside that the schema of the list that is
    the root of [L], whose items have the schema of the model [M], which
    names [M] as its class. The class entry of the schema of [L] itself,
    which [base_cls] does not read, is left out. *)
Definition BGGBaseList_core_schema (base : ModelFields) : CoreSchema :=
  let model_fields_schema := mkCoreSchema None None None in
  let items_schema := mkCoreSchema (Some base) (Some model_fields_schema) None in
  let list_schema := mkCoreSchema None None (Some items_schema) in
  let function_before_schema := mkCoreSchema None (Some list_schema) None in
  mkCoreSchema None (Some function_before_schema) None.

(** ** Derived readings of a descriptor *)

(** The tag of a field that carries no [xml_tag] (line 132). *)
Definition tag_of (item : str * FieldInfo) : str :=
  py_or (alias item.2) item.1.

(** What the loop of [from_xml] extracts for a field that carries no XML
    metadata. *)
Definition field_value (xml_elem : Element) (item : str * FieldInfo)
    : option XmlValue :=
  _get_xml_value xml_elem (tag_of item) AUTO.

(** One iteration of the loop of [from_xml] for a field that carries no
    XML metadata: the [AUTO] lookup under its tag, and no warning. *)
Definition auto_step (xml_elem : Element) (st : BindState)
    (item : str * FieldInfo) : BindState :=
  match field_value xml_elem item with
  | Some value =>
      {| full_dict := <[tag_of item := value]> (full_dict st);
         warnings := warnings st |}
  | None => st
  end.


(** The error [validate_field] reports for a field, if any. *)
Definition field_error (data : gmap str XmlValue) (item : str * FieldInfo)
    : option ErrorDetail :=
  let key := validation_key item.1 item.2 in
  match data !! key with
  | Some input =>
      match annotation item.2 input with
      | Some _ => None
      | None => Some (InvalidType key input)
      end
  | None =>
      match field_default item.2 with
      | PydanticUndefined => Some (Missing key)
      | _ => None
      end
  end.

Definition uses_factory (item : str * FieldInfo) : bool :=
  match field_default item.2 with
  | DefaultFactory _ => true
  | _ => false
  end.

(** A field as a bare annotation or [Field] declares it, read under a
    plain name: its name is not empty, it carries no dict of XML
    metadata, and its tag holds no path syntax. *)
Definition declared_plainly (item : str * FieldInfo) : bool :=
  truthy item.1 && negb (has_schema_extra item.2)
  && negb (ET.checkpath (tag_of item)).

(** [BGGBaseModel.tags]: for each field its alias, else its name. *)
Definition tags (model_fields : ModelFields) : list str :=
  map (λ item : str * FieldInfo,
         match alias item.2 with
         | Some a => a
         | None => item.1
         end)
      model_fields.

(** ** The extraction rules in the words of the specification *)

Module Spec.




(** (3) the trimmed text of the child, the empty string being absent. *)
Definition text_step (e : Element) (t : str) : option XmlValue :=
  match ET.findtext e t with
  | None => None
  | Some txt =>
      if truthy (strip txt) then Some (VStr (strip txt)) else None
  end.



(** [Text] as the specification words it: the trimmed text of the
    first child, absent when there is no child or nothing is left. *)
Definition text_trimmed (e : Element) (t : str) : option XmlValue :=
  text_step e t.

End Spec.

(** The [AUTO] branch of [_get_xml_value] with lines 189-191 (the
    [findtext] attempt) taken out. *)
Definition auto_without_findtext (xml_elem : Element) (tag_ : str)
    : option XmlValue :=
  match ET.get xml_elem tag_ with
  | Some v => Some (VStr v)
  | None =>
      match ET.find xml_elem tag_ with
      | Some elem =>
          match attrib elem !! lit "value" with
          | Some v => Some (VStr v)
          | None =>
              match text elem with
              | Some t =>
                  if truthy t && truthy (strip t)
                  then Some (VStr (strip t))
                  else Some (VElem elem)
              | None => Some (VElem elem)
              end
          end
      | None =>
          match ET.findall xml_elem tag_ with
          | [] => None
          | elements => Some (VElems elements)
          end
      end
  end.


(** ** Descriptors and elements used as examples *)

Module Examples.

(** The validator of a [str] field: a string as it is. *)
Definition str_annotation (v : XmlValue) : option PyValue :=
  match v with
  | VStr s => Some (PStr s)
  | _ => None
  end.

(** Decimal digits as a number. *)
Fixpoint decimal (acc : Z) (s : str) : option Z :=
  match s with
  | [] => Some acc
  | c :: rest =>
      if (48 <=? c) && (c <=? 57)
      then decimal (10 * acc + Z.of_N (c - 48))%Z rest
      else None
  end.

(** The white space pydantic trims from a string it reads a number
    from. *)
Definition is_white_space (c : N) : bool :=
  ((9 <=? c) && (c <=? 13)) || (c =? 32)
  || (c =? 133) || (c =? 160) || (c =? 5760)
  || ((8192 <=? c) && (c <=? 8202))
  || (c =? 8232) || (c =? 8233) || (c =? 8239) || (c =? 8287)
  || (c =? 12288).

Fixpoint trim_start (s : str) : str :=
  match s with
  | c :: rest => if is_white_space c then trim_start rest else s
  | [] => []
  end.

Definition trim (s : str) : str := rev (trim_start (rev (trim_start s))).

(** The validator of an [int] field on a string that holds, between
    white space, a decimal literal with or without a sign. The other
    strings pydantic takes for a number (with [_] between digits, or
    ending in [.0]) are refused here, as is anything that is no
    string. *)
Definition int_annotation (v : XmlValue) : option PyValue :=
  match v with
  | VStr s =>
      match trim s with
      | [] => None
      | c :: digits =>
          if c =? 45 then
            match digits with
            | [] => None
            | _ :: _ => (λ z, PInt (- z)%Z) <$> decimal 0 digits
            end
          else if c =? 43 then
            match digits with
            | [] => None
            | _ :: _ => PInt <$> decimal 0 digits
            end
          else PInt <$> decimal 0 (c :: digits)
      end
  | _ => None
  end.

(** The validator of a [dict[str, Any]] field: none of the values the
    extraction returns is a mapping. *)
Definition dict_annotation (v : XmlValue) : option PyValue := None.

(** The validator of a [dt.datetime] field on the numeric form of its
    input (seconds since the epoch); ISO 8601 text is not covered. *)
Definition datetime_annotation (v : XmlValue) : option PyValue :=
  match v with
  | VStr (c :: s) => PDatetime <$> decimal 0 (c :: s)
  | _ => None
  end.

(** [lambda: dt.datetime.now(dt.UTC)]: the next reading of the clock. *)
Definition now (w : World) : PyValue * World :=
  (PDatetime (readings w (position w)),
   mkWorld (readings w) (S (position w))).

(** The fields of [BGGPoll] (lines 271-277), declared without
    [XMLField]: each has the alias [flatcase_alias] makes of its name,
    and no [json_schema_extra]. *)
Definition name : str * FieldInfo :=
  (lit "name",
   mkFieldInfo (Some (lit "name")) None PydanticUndefined str_annotation).

Definition title : str * FieldInfo :=
  (lit "title",
   mkFieldInfo (Some (lit "title")) None PydanticUndefined str_annotation).

Definition total_votes : str * FieldInfo :=
  (lit "total_votes",
   mkFieldInfo (Some (lit "totalvotes")) None PydanticUndefined int_annotation).

Definition results : str * FieldInfo :=
  (lit "results",
   mkFieldInfo (Some (lit "results")) None (DefaultValue (PDict []))
     dict_annotation).

Definition BGGPoll : ModelFields := [name; title; total_votes; results].



(** [BGGPollList] (line 280). *)
Definition BGGPollList : ListClass :=
  mkListClass (lit "BGGPollList") (BGGBaseList_core_schema BGGPoll).

(** [fetched_at] of [BGGGame] and [BGGCollection], declared with [Field]
    and so without [json_schema_extra]. *)
Definition fetched_at : str * FieldInfo :=
  (lit "fetched_at",
   mkFieldInfo (Some (lit "fetchedat")) None (DefaultFactory now)
     datetime_annotation).

(** A field declared with
    [Field(json_schema_extra={"xml_lookup_strategy": "xpath"})]. *)
Definition type_by_xpath : str * FieldInfo :=
  (lit "type",
   mkFieldInfo (Some (lit "type"))
     (Some [(lit "xml_lookup_strategy", JStr (lit "xpath"))])
     PydanticUndefined str_annotation).

Definition element (t : str) (attrs : list (str * str)) (txt : option str)
    (cs : list Element) : Element :=
  mkElement t (list_to_map attrs) txt cs.

(** [<item type="boardgame"><type>other</type></item>] *)
Definition item_with_type : Element :=
  element (lit "item") [(lit "type", lit "boardgame")] None
    [element (lit "type") [] (Some (lit "other")) []].

(** [<item><a>  </a></item>] *)
Definition item_with_blank : Element :=
  element (lit "item") [] None
    [element (lit "a") [] (Some (lit "  ")) []].

(** [<item><a/></item>] *)
Definition item_with_empty : Element :=
  element (lit "item") [] None [element (lit "a") [] None []].

(** [<item><yearpublished value="2017"/></item>] *)
Definition item_with_year : Element :=
  element (lit "item") [] None
    [element (lit "yearpublished") [(lit "value", lit "2017")] None []].

Definition link (id_ : str) : Element :=
  element (lit "link") [(lit "id", id_)] None [].

(** An element with three [link] children around a [name] child. *)
Definition item_with_links : Element :=
  element (lit "item") [] None
    [link (lit "1"); element (lit "name") [] None []; link (lit "2");
     link (lit "3")].

(** [<item><description>  Wingspan </description></item>] *)
Definition item_with_description : Element :=
  element (lit "item") [] None
    [element (lit "description") [] (Some (lit "  Wingspan ")) []].

(** [<item><a><b>deep</b></a></item>] *)
Definition item_with_grandchild : Element :=
  element (lit "item") [] None
    [element (lit "a") [] None
       [element (lit "b") [] (Some (lit "deep")) []]].

(** [<poll name=... title=... totalvotes=.../>] *)
Definition poll (name_ title_ totalvotes_ : str) : Element :=
  element (lit "poll")
    [(lit "name", name_); (lit "title", title_);
     (lit "totalvotes", totalvotes_)]
    None [].

(** [<poll name="language_dependence" title="Language Dependence"/>], a
    poll without its [totalvotes]. *)
Definition poll_without_totalvotes : Element :=
  element (lit "poll")
    [(lit "name", lit "language_dependence");
     (lit "title", lit "Language Dependence")] None [].


(** The readings of a clock stopped at [t]. *)
Definition stopped_at (t : Z) : World := mkWorld (λ _, t) 0.

End Examples.

(** ** The accessors of [BGGGame] *)

Module Game.

(** A validated [BGGName]. *)
Record Name : Type := mkName {
  name_type : str;
  value : str;
  sort_index : Z
}.

(** [str(n)] of an [int]. *)
Definition py_str_int (n : Z) : str :=
  lit (NilZero.string_of_int (Z.to_int n)).

(** [BGGGame.primary_name], from the [id] and the [names] of the game. *)
Definition primary_name (id : Z) (names : list Name) : str :=
  match head (filter (λ n, name_type n = lit "primary") names) with
  | Some primary => value primary
  | None => py_str_int id
  end.

(** Truth value of a [JsonValue] in a condition. *)
Definition json_truthy (v : JsonValue) : bool :=
  match v with
  | JNone => false
  | JBool b => b
  | JInt z => negb (z =? 0)%Z
  | JStr s => truthy s
  | JList l => match l with [] => false | _ :: _ => true end
  | JDict d => match d with [] => false | _ :: _ => true end
  end.

(** [v == s] for a string [s]: only a string equals a string. *)
Definition json_eq_str (v : JsonValue) (s : str) : bool :=
  match v with
  | JStr s' => bool_decide (s' = s)
  | _ => false
  end.

(** The condition of lines 389-391 on one entry of [ranks]: the value to
    convert when the entry is of type [boardgame] and its value is
    neither false nor ["Not Ranked"]. *)
Definition rank_value (rank : gmap str JsonValue) : option JsonValue :=
  match rank !! lit "type" with
  | Some type_ =>
      if json_eq_str type_ (lit "boardgame")
      then match rank !! lit "value" with
           | Some value =>
               if json_truthy value
                  && negb (json_eq_str value (lit "Not Ranked"))
               then Some value
               else None
           | None => None
           end
      else None
  | None => None
  end.

(** The loop of [BGGGame.bgg_rank] (lines 388-395). [int_] is the builtin
    [int], which returns a number or raises. *)
Fixpoint bgg_rank_loop {Err : Type} (int_ : JsonValue → Err + Z)
    (ranks : list (gmap str JsonValue)) : Err + option Z :=
  match ranks with
  | [] => inr None
  | rank :: rest =>
      match rank_value rank with
      | Some value =>
          match int_ value with
          | inl err => inl err
          | inr n => inr (Some n)
          end
      | None => bgg_rank_loop int_ rest
      end
  end.

(** [BGGGame.bgg_rank], from the [ranks] of the [statistics] of the game,
    if it has statistics. *)
Definition bgg_rank {Err : Type} (int_ : JsonValue → Err + Z)
    (statistics : option (list (gmap str JsonValue))) : Err + option Z :=
  match statistics with
  | None => inr None
  | Some [] => inr None
  | Some ranks => bgg_rank_loop int_ ranks
  end.

(** [int] on the values the examples use: numbers and unsigned decimal
    literals. *)
Definition int_of_literal (v : JsonValue) : JsonValue + Z :=
  match v with
  | JInt z => inr z
  | JStr (c :: s) =>
      match Examples.decimal 0 (c :: s) with
      | Some z => inr z
      | None => inl v
      end
  | _ => inl v
  end.

End Game.


(** ** Retrying ([bgg/utils/retry.py]) and the client ([bgg/clients]) *)

Module Retry.

Local Open Scope Z_scope.

(** The exceptions that reach [with_retry], by the [except] clause that
    takes them: [RateLimitError]; [APIError], [RuntimeError],
    [OverflowError] and any other [Exception]; and a [BaseException]
    that is no [Exception], which no clause takes. *)
Inductive PyException : Type :=
  | RateLimitError (msg : str)
  | APIError (msg : str)
  | RuntimeError (msg : str)
  | OverflowError (msg : str)
  | OtherException (msg : str)
  | NotAnException (msg : str).

Definition is_exception (e : PyException) : bool :=
  match e with
  | NotAnException _ => false
  | _ => true
  end.

Definition is_rate_limit (e : PyException) : bool :=
  match e with
  | RateLimitError _ => true
  | _ => false
  end.

Section with_retry.

(** Floating-point numbers, with the sum, the product and the conversion
    of an [int] that [get_delay] uses. *)
Context {F : Type} (fadd fmul : F → F → F) (of_int : Z → F).

(** [get_delay], for the attempts [range] gives, which are not
    negative, and a [backoff_factor] that is a float. The product
    converts the integer [2**attempt] to a float, which raises
    [OverflowError] from [2**1024] on. *)
Definition get_delay (attempt : Z) (backoff_factor base_delay : F)
    : PyException + F :=
  if attempt <? 1024
  then inr (fadd base_delay (fmul backoff_factor (of_int (2 ^ attempt))))
  else inl (OverflowError (lit "int too large to convert to float")).

(** What the wrapper does besides returning: the calls of the wrapped
    function, the lines it logs, and its sleeps. *)
Inductive Event : Type :=
  | Call (attempt : Z)
  | LogWarning (delay : F) (attempt : Z) (e : PyException)
  | LogError (e : PyException)
  | Sleep (delay : F).

(** The [for] loop of [wrapper] over the attempts left, and the [raise]
    after it. [func] gives what the call made at each attempt returns or
    raises. An exception raised by [get_delay] inside an [except] clause
    leaves the wrapper. *)
Fixpoint attempts_loop {R : Type} (func : Z → PyException + R)
    (max_retries : Z) (backoff_factor : F) (attempts : list Z)
    (last_exception : option PyException)
    : list Event * (PyException + R) :=
  match attempts with
  | [] =>
      ([],
       inl (default (RuntimeError (lit "Unknown error occurred after retries"))
              last_exception))
  | attempt :: rest =>
      match func attempt with
      | inr result => ([Call attempt], inr result)
      | inl e =>
          if is_rate_limit e then
            if attempt <? max_retries then
              match get_delay attempt backoff_factor (of_int 5) with
              | inl overflow => ([Call attempt], inl overflow)
              | inr delay =>
                  let '(events, outcome) :=
                    attempts_loop func max_retries backoff_factor rest
                      (Some e) in
                  (Call attempt :: LogWarning delay attempt e :: Sleep delay
                     :: events,
                   outcome)
              end
            else ([Call attempt; LogError e], inl e)
          else if is_exception e then
            if attempt <? max_retries then
              match get_delay attempt backoff_factor (of_int 0) with
              | inl overflow => ([Call attempt], inl overflow)
              | inr delay =>
                  let '(events, outcome) :=
                    attempts_loop func max_retries backoff_factor rest
                      (Some e) in
                  (Call attempt :: LogWarning delay attempt e :: Sleep delay
                     :: events,
                   outcome)
              end
            else ([Call attempt; LogError e], inl e)
          else ([Call attempt], inl e)
      end
  end.

(** The [wrapper] that [with_retry(max_retries, backoff_factor)] makes
    of [func]. *)
Definition wrapper {R : Type} (max_retries : Z) (backoff_factor : F)
    (func : Z → PyException + R) : list Event * (PyException + R) :=
  attempts_loop func max_retries backoff_factor (seqZ 0 (max_retries + 1)) None.

(** The attempts at which the wrapped function was called. *)
Definition calls (events : list Event) : list Z :=
  omap (λ ev, match ev with Call attempt => Some attempt | _ => None end)
    events.

(** The delays slept. *)
Definition sleeps (events : list Event) : list F :=
  omap (λ ev, match ev with Sleep delay => Some delay | _ => None end) events.

(** The base delay the wrapper passes to [get_delay] after a failure. *)
Definition base_delay_after {R : Type} (outcome : PyException + R) : F :=
  match outcome with
  | inl e => if is_rate_limit e then of_int 5 else of_int 0
  | inr _ => of_int 0
  end.

End with_retry.

(** What the transport does with a request: a response with its status
    code and content, an [httpx.HTTPError] with its text, or another
    exception. *)
Inductive Transport : Type :=
  | Responded (status_code : Z) (content : str)
  | RaisedHTTPError (text_ : str)
  | Raised (e : PyException).

(** The body of [BaseHTTPClient.get], its two log lines aside.
    [client] tells whether [self._client] is set; [raise_for_status]
    gives the text of the [HTTPStatusError] that
    [response.raise_for_status()] raises for a status code, if it raises
    one. *)
Definition get_body (client : bool) (raise_for_status : Z → option str)
    (reply : Transport) : PyException + (Z * str) :=
  if negb client
  then inl (RuntimeError
              (lit "Client is not initialized. Use 'async with' to create the client."))
  else
    match reply with
    | Responded status_code content =>
        if status_code =? 429
        then inl (RateLimitError (lit "Rate limit exceeded"))
        else
          match raise_for_status status_code with
          | Some text_ => inl (APIError (lit "Request failed: " ++ text_))
          | None => inr (status_code, content)
          end
    | RaisedHTTPError text_ => inl (APIError (lit "Request failed: " ++ text_))
    | Raised e => inl e
    end.

(** [BaseHTTPClient.get] as decorated: [get_body] under [with_retry].
    [replies] gives what the transport does at each attempt. *)
Definition get {F : Type} (fadd fmul : F → F → F) (of_int : Z → F)
    (max_retries : Z) (backoff_factor : F) (client : bool)
    (raise_for_status : Z → option str) (replies : Z → Transport)
    : list (Event (F := F)) * (PyException + (Z * str)) :=
  wrapper fadd fmul of_int max_retries backoff_factor
    (λ attempt, get_body client raise_for_status (replies attempt)).

End Retry.

(** ** The file cache ([bgg/utils/cache.py]) *)

Module Cache.

Local Open Scope Z_scope.

(** The exceptions that leave the cache. *)
Inductive Raised : Type :=
  | TypeError (msg : str)
  | RuntimeError (msg : str)
  | OverflowError
  | OSError (msg : str)
  | Uncaught (msg : str).

(** A path of the cache: the directory and the name of the file in it. *)
Abbreviation Path := (str * str)%type.

(** The next reading of the clock ([dt.datetime.now(dt.UTC)]), in
    microseconds since the epoch. *)
Definition read_clock (w : World) : Z * World :=
  (readings w (position w), mkWorld (readings w) (S (position w))).

(** [dt.timedelta(seconds=ttl)] for an [int], in microseconds:
    [OverflowError] when the days it makes are more than 999999999 in
    magnitude. *)
Definition timedelta (seconds : Z) : option Z :=
  if Z.abs (seconds / 86400) <=? 999999999
  then Some (seconds * 1000000)
  else None.

(** [dt.datetime.min] and [dt.datetime.max] in UTC, in microseconds
    since the epoch. *)
Definition datetime_min : Z := -62135596800000000.
Definition datetime_max : Z := 253402300799999999.

(** [t + delta] for a [datetime] and a [timedelta]: [OverflowError]
    when the sum is no date of the years 1 to 9999. *)
Definition datetime_add (t delta : Z) : option Z :=
  if (datetime_min <=? t + delta) && (t + delta <=? datetime_max)
  then Some (t + delta)
  else None.

(** [now + dt.timedelta(seconds=ttl)] (line 86). *)
Definition expiry (now ttl : Z) : option Z :=
  match timedelta ttl with
  | Some delta => datetime_add now delta
  | None => None
  end.

Section file_cache.

(** The type of the cached values other than [None], and
    [hashlib.md5(key.encode()).hexdigest()]. *)
Context {V : Type} (md5_hexdigest : str → str).

(** [PickleData]; a [value] of [None] is [None]. *)
Record PickleData : Type := mkPickleData {
  value : option V;
  expires_at : Z;
  created_at : Z
}.

(** What [pickle.load] makes of a file: an instance of [PickleData], an
    object of another type, or an exception. *)
Inductive File : Type :=
  | Pickled (data : PickleData)
  | PickledOther (type_name : str)
  | RaisesUnpicklingError
  | RaisesEOFError
  | RaisesOther (msg : str).

(** What [cache_path.unlink(missing_ok=True)] does in the handler of
    line 93: it removes the file if there is one, or raises [OSError]
    and leaves at the path what was there. *)
Inductive Unlink : Type :=
  | Unlinked
  | UnlinkRaisedOSError (msg : str) (left_behind : option File).

(** What [data.dump(cache_path)] does: it writes the file, or raises
    [PicklingError] or [OSError], after which the handler unlinks the
    path, or raises something else and leaves behind the file it opened,
    with what it wrote until then. *)
Inductive Dump : Type :=
  | Dumped
  | RaisedPicklingError (unlink : Unlink)
  | RaisedOSError (unlink : Unlink)
  | RaisedOther (msg : str) (left_behind : File).

(** The lines the cache logs; [key] is [key[:50]]. *)
Inductive LogLine : Type :=
  | CacheExpired (key : str)
  | CacheHit (key : str)
  | CacheReadError (key : str)
  | CacheSet (key : str)
  | CacheWriteError (key : str).

(** The files of the cache directory, the world, and the log. *)
Record State : Type := mkState {
  files : gmap Path File;
  world : World;
  log : list LogLine
}.

(** [FileCache._get_cache_path]. *)
Definition _get_cache_path (cache_dir key : str) : Path :=
  (cache_dir, md5_hexdigest key ++ lit ".cache").

(** [FileCache.get], for [settings.cache_enabled] and the directory of
    the cache. *)
Definition get (cache_enabled : bool) (cache_dir key : str) (st : State)
    : (Raised + option V) * State :=
  if negb cache_enabled then (inr None, st)
  else
    let cache_path := _get_cache_path cache_dir key in
    match files st !! cache_path with
    | None => (inr None, st)
    | Some (Pickled data) =>
        let '(now, w) := read_clock (world st) in
        if now >? expires_at data
        then (inr None,
              mkState (delete cache_path (files st)) w
                (log st ++ [CacheExpired (take 50 key)]))
        else (inr (value data),
              mkState (files st) w (log st ++ [CacheHit (take 50 key)]))
    | Some (PickledOther type_name) =>
        (inl (TypeError (lit "Expected PickleData, got " ++ type_name)), st)
    | Some RaisesUnpicklingError | Some RaisesEOFError =>
        (inr None,
         mkState (delete cache_path (files st)) (world st)
           (log st ++ [CacheReadError (take 50 key)]))
    | Some (RaisesOther msg) => (inl (Uncaught msg), st)
    end.

(** The handler of lines 93-96: the log line, the unlink and the
    [RuntimeError], or the [OSError] of the unlink. *)
Definition write_error (cache_path : Path) (key : str) (unlink : Unlink)
    (w : World) (st : State) : (Raised + unit) * State :=
  match unlink with
  | Unlinked =>
      (inl (RuntimeError (lit "Failed to write cache for key " ++ take 50 key)),
       mkState (delete cache_path (files st)) w
         (log st ++ [CacheWriteError (take 50 key)]))
  | UnlinkRaisedOSError msg left_behind =>
      (inl (OSError msg),
       mkState
         (match left_behind with
          | Some file => <[cache_path := file]> (files st)
          | None => delete cache_path (files st)
          end)
         w (log st ++ [CacheWriteError (take 50 key)]))
  end.

(** [FileCache.set]; [dump] tells what writing the file does. The
    clock is read before the [timedelta] is made, and once more by the
    default factory of [created_at]. *)
Definition set (cache_enabled : bool) (cache_dir key : str)
    (value_ : option V) (ttl : Z) (dump : Dump) (st : State)
    : (Raised + unit) * State :=
  if negb cache_enabled then (inr tt, st)
  else
    let cache_path := _get_cache_path cache_dir key in
    let '(now, w1) := read_clock (world st) in
    match expiry now ttl with
    | None =>
        (inl OverflowError, mkState (files st) w1 (log st))
    | Some expires =>
        let '(created, w2) := read_clock w1 in
        let data := mkPickleData value_ expires created in
        match dump with
        | Dumped =>
            (inr tt,
             mkState (<[cache_path := Pickled data]> (files st)) w2
               (log st ++ [CacheSet (take 50 key)]))
        | RaisedPicklingError unlink | RaisedOSError unlink =>
            write_error cache_path key unlink w2 st
        | RaisedOther msg left_behind =>
            (inl (Uncaught msg),
             mkState (<[cache_path := left_behind]> (files st)) w2 (log st))
        end
    end.

(** The wrapper [cached_request(ttl)] makes of a function, for the cache
    key of the call. [func] is what the function returns or raises when
    it is called; the wrapper also tells whether it called it. *)
Definition cached_request (cache_enabled : bool) (cache_dir : str) (ttl : Z)
    (cache_key : str) (func : Raised + option V) (dump : Dump) (st : State)
    : (Raised + option V) * bool * State :=
  match get cache_enabled cache_dir cache_key st with
  | (inl err, st1) => (inl err, false, st1)
  | (inr (Some cached_result), st1) => (inr (Some cached_result), false, st1)
  | (inr None, st1) =>
      match func with
      | inl err => (inl err, true, st1)
      | inr result =>
          match set cache_enabled cache_dir cache_key result ttl dump st1 with
          | (inl err, st2) => (inl err, true, st2)
          | (inr _, st2) => (inr result, true, st2)
          end
      end
  end.

End file_cache.

End Cache.

(** * Properties *)

Import Examples.

(** ** Strings *)


Lemma truthy_true (s : str) : truthy s = true ↔ s ≠ [].
Proof. destruct s; simpl; split; congruence. Qed.


(** ** The first match *)

Lemma find_head_findall (e : Element) (t : str) :
  ET.find e t = head (ET.findall e t).
Proof. reflexivity. Qed.

Lemma findtext_find (e : Element) (t : str) :
  ET.findtext e t = (λ c, default [] (text c)) <$> ET.find e t.
Proof.
  unfold ET.findtext, ET.find.
  destruct (head (ET.iterfind e t)) as [c|]; [|done].
  simpl. by destruct (text c).
Qed.

Lemma find_None_findall (e : Element) (t : str) :
  ET.find e t = None → ET.findall e t = [].
Proof. rewrite find_head_findall. apply head_None. Qed.

(** ** Children by name *)

Section children_by_name.
Context (e : Element) (t : str) (Hplain : ET.checkpath t = false).

Lemma iterfind_plain :
  ET.iterfind e t = filter (λ c, tag c = t) (children e).
Proof using Hplain. unfold ET.iterfind. by rewrite Hplain. Qed.

Lemma find_None : ET.find e t = None ↔ Forall (λ c, tag c ≠ t) (children e).
Proof using Hplain.
  unfold ET.find. rewrite iterfind_plain, head_None, Forall_forall. split.
  - intros Hnil c Hc Ht.
    exact (filter_nil_not_elem_of _ _ c Hnil Ht Hc).
  - intros Hall. induction (children e) as [|c cs IH]; [done|].
    rewrite filter_cons_False.
    + apply IH. intros x Hx. apply Hall. by right.
    + apply Hall. by left.
Qed.

Lemma find_first_child (pre post : list Element) (c : Element) :
  children e = pre ++ c :: post →
  Forall (λ x, tag x ≠ t) pre →
  tag c = t →
  ET.find e t = Some c.
Proof using Hplain.
  intros Hsplit Hpre Hc. unfold ET.find. rewrite iterfind_plain, Hsplit.
  rewrite filter_app.
  assert (filter (λ x, tag x = t) pre = []) as ->.
  { clear Hsplit. induction Hpre as [|x xs Hx _ IH]; [done|].
    by rewrite filter_cons_False. }
  by rewrite filter_cons_True.
Qed.

End children_by_name.

(** ** The [AUTO] strategy *)



(** C10. The [findtext] attempt of the [AUTO] chain never decides the
    result: when [findtext] finds a text, [find] has found the child
    before it, and [AUTO] equals the chain without that attempt. *)
Theorem auto_findtext_step_redundant (e : Element) (t : str) :
  (∀ txt, ET.findtext e t = Some txt → ∃ elem, ET.find e t = Some elem)
  ∧ _get_xml_value e t AUTO = auto_without_findtext e t.
Proof.
  split.
  - intros txt. rewrite findtext_find.
    destruct (ET.find e t) as [c|]; [eauto|done].
  - unfold auto_without_findtext. simpl.
    destruct (ET.get e t); [done|].
    destruct (ET.find e t) eqn:Hfind; [done|].
    by rewrite findtext_find, Hfind.
Qed.

Lemma auto_findtext_step_redundant_witness :
  ET.findtext item_with_type (lit "type") = Some (lit "other")
  ∧ ∃ elem, ET.find item_with_type (lit "type") = Some elem.
Proof.
  split; [reflexivity|].
  apply (proj1 (auto_findtext_step_redundant item_with_type (lit "type"))
           (lit "other")).
  reflexivity.
Defined.

(** ** The [TEXT], [FIND] and [FINDALL] strategies *)

(** C3, as the code has it. For a tag that is a plain name, [TEXT]
    returns the text of the first direct child of that name as it is
    stored, untrimmed, the empty string when that child has no text, and
    is absent only when there is no such child; the text branch of
    [FIND] returns the child's text as it is stored and is absent only
    when the child has no text. Whitespace-only text comes back
    unchanged from both. *)
Theorem text_returned_as_stored (e : Element) (t : str) :
  ET.checkpath t = false →
  (Forall (λ c, tag c ≠ t) (children e) → _get_xml_value e t TEXT = None)
  ∧ (∀ pre child post,
       children e = pre ++ child :: post →
       Forall (λ c, tag c ≠ t) pre →
       tag child = t →
       _get_xml_value e t TEXT = Some (VStr (default [] (text child)))
       ∧ (attrib child !! lit "value" = None →
          _get_xml_value e t FIND = VStr <$> text child)).
Proof.
  intros Hplain. split.
  - intros Hnone%(find_None e t Hplain). simpl.
    by rewrite findtext_find, Hnone.
  - intros pre child post Hsplit Hpre Hchild.
    pose proof (find_first_child e t Hplain pre post child Hsplit Hpre Hchild)
      as Hf.
    simpl. rewrite findtext_find, Hf. split; [done|]. by intros ->.
Qed.

Lemma text_returned_as_stored_witness :
  _get_xml_value item_with_blank (lit "a") TEXT = Some (VStr (lit "  "))
  ∧ _get_xml_value item_with_blank (lit "a") FIND = Some (VStr (lit "  ")).
Proof.
  destruct (proj2 (text_returned_as_stored item_with_blank (lit "a") eq_refl)
              [] (element (lit "a") [] (Some (lit "  ")) []) [])
    as [Htext Hfind]; [reflexivity|constructor|reflexivity|].
  split; [exact Htext|]. apply Hfind. reflexivity.
Defined.

(** C3, as the specification words it, fails: on [<item><a>  </a></item>]
    the trimmed lookup is absent, while [TEXT] and [FIND] both return the
    two spaces; on [<item><a/></item>] [TEXT] returns the empty string;
    and on [<item><a><b>deep</b></a></item>], which has no direct child
    called [a/b], [TEXT] for [a/b] returns the text of the grandchild. *)
Lemma text_whitespace_not_absent :
  Spec.text_trimmed item_with_blank (lit "a") = None
  ∧ _get_xml_value item_with_blank (lit "a") TEXT = Some (VStr (lit "  "))
  ∧ _get_xml_value item_with_blank (lit "a") FIND = Some (VStr (lit "  "))
  ∧ _get_xml_value item_with_empty (lit "a") TEXT = Some (VStr [])
  ∧ Forall (λ c, tag c ≠ lit "a/b") (children item_with_grandchild)
  ∧ _get_xml_value item_with_grandchild (lit "a/b") TEXT
    = Some (VStr (lit "deep")).
Proof.
  split_and!; try reflexivity. repeat constructor. discriminate.
Qed.

(** C8, as the code has it. For a tag that is a plain name, [FIND] takes
    the first direct child of that name and returns its [value]
    attribute when it has one, otherwise its text; without such a child
    the result is absent. *)
Theorem find_value_attribute_else_text (e : Element) (t : str) :
  ET.checkpath t = false →
  (Forall (λ c, tag c ≠ t) (children e) → _get_xml_value e t FIND = None)
  ∧ (∀ pre child post,
       children e = pre ++ child :: post →
       Forall (λ c, tag c ≠ t) pre →
       tag child = t →
       _get_xml_value e t FIND =
         match attrib child !! lit "value" with
         | Some v => Some (VStr v)
         | None => VStr <$> text child
         end).
Proof.
  intros Hplain. split.
  - intros Hnone%(find_None e t Hplain). simpl. by rewrite Hnone.
  - intros pre child post Hsplit Hpre Hchild. simpl.
    by rewrite (find_first_child e t Hplain pre post child Hsplit Hpre Hchild).
Qed.

Lemma find_value_attribute_else_text_witness :
  _get_xml_value item_with_year (lit "yearpublished") FIND
  = Some (VStr (lit "2017")).
Proof.
  apply (proj2 (find_value_attribute_else_text item_with_year
                  (lit "yearpublished") eq_refl)
           [] (element (lit "yearpublished") [(lit "value", lit "2017")] None [])
           []); [reflexivity|constructor|reflexivity].
Defined.

(** C8, as the specification words it, fails: the tag is read as a
    path. [<item><a><b>deep</b></a></item>] has no direct child called
    [a/b], yet [FIND] for [a/b] returns the text of the grandchild; and
    [<item><yearpublished value="2017"/></item>] has no child called
    [*], yet [FIND] for [*] returns the value of its first child. *)
Lemma find_reads_a_path :
  Forall (λ c, tag c ≠ lit "a/b") (children item_with_grandchild)
  ∧ _get_xml_value item_with_grandchild (lit "a/b") FIND
    = Some (VStr (lit "deep"))
  ∧ Forall (λ c, tag c ≠ lit "*") (children item_with_year)
  ∧ _get_xml_value item_with_year (lit "*") FIND = Some (VStr (lit "2017")).
Proof.
  split_and!; try reflexivity; repeat constructor; discriminate.
Qed.

(** C9, as the code has it. For a tag that is a plain name, [FINDALL]
    returns all the direct children of that name, as elements and in
    document order, when there is at least one, and is absent when there
    is none. *)
Theorem findall_children_in_order (e : Element) (t : str) :
  ET.checkpath t = false →
  (Forall (λ c, tag c ≠ t) (children e) → _get_xml_value e t FINDALL = None)
  ∧ (Exists (λ c, tag c = t) (children e) →
     ∃ l, _get_xml_value e t FINDALL = Some (VElems l)
          ∧ l ≠ []
          ∧ l = filter (λ c, tag c = t) (children e)
          ∧ l `sublist_of` children e
          ∧ Forall (λ c, tag c = t) l
          ∧ (∀ pre c post,
               children e = pre ++ c :: post → tag c = t →
               l !! length (filter (λ x, tag x = t) pre) = Some c)).
Proof.
  intros Hplain.
  assert (ET.findall e t = filter (λ c, tag c = t) (children e)) as Hall
    by apply (iterfind_plain e t Hplain).
  split.
  - intros Hnone%(find_None e t Hplain)%find_None_findall. simpl.
    by rewrite Hnone.
  - intros Hex. exists (ET.findall e t).
    assert (ET.findall e t ≠ []) as Hne.
    { rewrite Hall. intros Hnil. apply Exists_exists in Hex as (c & Hc & Ht).
      exact (filter_nil_not_elem_of _ _ c Hnil Ht Hc). }
    split_and!.
    + simpl. by destruct (ET.findall e t).
    + done.
    + done.
    + rewrite Hall. apply sublist_filter.
    + rewrite Hall. apply Forall_forall.
      by intros c [Hc _]%list_elem_of_filter.
    + intros pre c post Hsplit Hc. rewrite Hall.
      rewrite Hsplit, filter_app, filter_cons_True by done.
      by rewrite lookup_app_r, Nat.sub_diag.
Qed.

Lemma findall_children_in_order_witness :
  ∃ l, _get_xml_value item_with_links (lit "link") FINDALL = Some (VElems l)
       ∧ l = [link (lit "1"); link (lit "2"); link (lit "3")].
Proof.
  destruct (proj2 (findall_children_in_order item_with_links (lit "link")
                     eq_refl))
    as (l & Hval & _ & Hl & _).
  - apply Exists_cons_hd. reflexivity.
  - exists l. split; [exact Hval|]. rewrite Hl. reflexivity.
Defined.

(** C9, as the specification words it, fails: the tag is read as a
    path. The element with three [link] children around a [name] child
    has no child called [*], yet [FINDALL] for [*] returns its four
    children. *)
Lemma findall_star_returns_every_child :
  Forall (λ c, tag c ≠ lit "*") (children item_with_links)
  ∧ _get_xml_value item_with_links (lit "*") FINDALL
    = Some (VElems [link (lit "1"); element (lit "name") [] None [];
                    link (lit "2"); link (lit "3")]).
Proof.
  split; [|reflexivity]. repeat constructor; discriminate.
Qed.

(** ** The strategy token *)

Lemma XMLLookupStrategy_call_member (m : XMLLookupStrategy) :
  XMLLookupStrategy_call (JStr (strategy_value m)) = inr m.
Proof. by destruct m. Qed.

Lemma XMLLookupStrategy_call_unrecognized (token : JsonValue) :
  (∀ m, token ≠ JStr (strategy_value m)) →
  XMLLookupStrategy_call token = inl (NotAValidStrategy token).
Proof.
  intros Hnot. destruct token as [| | |s| |]; try done.
  unfold XMLLookupStrategy_call.
  destruct (list_find (λ m, strategy_value m = s) all_strategies)
    as [[i m]|] eqn:Hfind; [|done].
  apply list_find_Some in Hfind as (_ & <- & _). by destruct (Hnot m).
Qed.

(** ** The validation of a [JsonValue] never returns *)

Lemma validate_plain_value_raises (depth : nat) (data : JsonValue) :
  validate_plain_value depth data = inl RecursionError.
Proof.
  revert data. induction depth as [|depth IH]; intros data; [done|].
  destruct data as [| | | |[|item rest]|]; cbn [validate_plain_value];
    by rewrite ?IH.
Qed.

Lemma JsonValue_model_validate_raises (data : JsonValue) :
  JsonValue_model_validate data = inl RecursionError.
Proof. apply validate_plain_value_raises. Qed.

Lemma JsonDict_model_validate_raises (entry : str * JsonValue)
    (entries : list (str * JsonValue)) :
  JsonDict_model_validate (entry :: entries) = inl RecursionError.
Proof.
  destruct entry as [key v]. cbn [JsonDict_model_validate].
  by rewrite JsonValue_model_validate_raises.
Qed.

Lemma xml_metadata_raises (field_info : FieldInfo) :
  has_schema_extra field_info = true →
  xml_metadata field_info = inl RecursionError.
Proof.
  unfold has_schema_extra, xml_metadata.
  destruct (json_schema_extra field_info) as [[|entry entries]|]; try done.
  by rewrite JsonDict_model_validate_raises.
Qed.

Lemma xml_metadata_without_extra (field_info : FieldInfo) :
  has_schema_extra field_info = false →
  xml_metadata field_info = inr (None, JStr (strategy_value AUTO)).
Proof.
  unfold has_schema_extra, xml_metadata.
  by destruct (json_schema_extra field_info) as [[|entry entries]|].
Qed.

(** ** The loop of [from_xml] *)

Lemma bind_field_raises (e : Element) (st : BindState)
    (item : str * FieldInfo) :
  has_schema_extra item.2 = true →
  bind_field e st item = inl RecursionError.
Proof. intros Hextra. unfold bind_field. by rewrite xml_metadata_raises. Qed.

Lemma bind_field_without_extra (e : Element) (st : BindState)
    (item : str * FieldInfo) :
  has_schema_extra item.2 = false →
  bind_field e st item = inr (auto_step e st item).
Proof.
  intros Hextra. unfold bind_field, auto_step, field_value, tag_of.
  rewrite xml_metadata_without_extra by done.
  change (resolve_strategy (JStr (strategy_value AUTO))) with AUTO.
  change (resolve_tag None item.1 item.2) with (py_or (alias item.2) item.1).
  by destruct (_get_xml_value e _ AUTO).
Qed.

Lemma bind_fields_without_extra (e : Element) (fields : ModelFields) :
  ∀ st,
    (∀ item, item ∈ fields → has_schema_extra item.2 = false) →
    bind_fields e st fields = (foldl (auto_step e) st fields, None).
Proof.
  induction fields as [|item rest IH]; intros st Hall; [done|].
  cbn [bind_fields foldl].
  rewrite bind_field_without_extra by (apply Hall; by left).
  apply IH. intros x Hx. apply Hall. by right.
Qed.

Lemma bind_fields_raises (e : Element) (pre post : ModelFields)
    (item : str * FieldInfo) :
  ∀ st,
    (∀ x, x ∈ pre → has_schema_extra x.2 = false) →
    has_schema_extra item.2 = true →
    bind_fields e st (pre ++ item :: post)
    = (foldl (auto_step e) st pre, Some RecursionError).
Proof.
  induction pre as [|x pre IH]; intros st Hpre Hitem.
  - cbn [app bind_fields foldl]. by rewrite bind_field_raises.
  - cbn [app bind_fields foldl].
    rewrite bind_field_without_extra by (apply Hpre; by left).
    apply IH; [|done]. intros y Hy. apply Hpre. by right.
Qed.

Lemma auto_step_warnings (e : Element) (st : BindState)
    (item : str * FieldInfo) :
  warnings (auto_step e st item) = warnings st.
Proof. unfold auto_step. by destruct (field_value e item). Qed.

Lemma foldl_auto_step_warnings (e : Element) (fields : ModelFields) :
  ∀ st, warnings (foldl (auto_step e) st fields) = warnings st.
Proof.
  induction fields as [|item rest IH]; intros st; [done|].
  cbn [foldl]. by rewrite IH, auto_step_warnings.
Qed.

Lemma bind_fields_warnings (e : Element) (fields : ModelFields) :
  ∀ st, warnings (bind_fields e st fields).1 = warnings st.
Proof.
  induction fields as [|item rest IH]; intros st; [done|].
  cbn [bind_fields].
  destruct (has_schema_extra item.2) eqn:Hextra.
  - by rewrite bind_field_raises.
  - rewrite bind_field_without_extra by done.
    by rewrite IH, auto_step_warnings.
Qed.

Lemma auto_step_lookup (e : Element) (st : BindState)
    (item : str * FieldInfo) (k : str) :
  full_dict (auto_step e st item) !! k =
    if decide (tag_of item = k)
    then match _get_xml_value e k AUTO with
         | Some v => Some v
         | None => full_dict st !! k
         end
    else full_dict st !! k.
Proof.
  unfold auto_step, field_value. case_decide as Htag.
  - subst k. destruct (_get_xml_value e _ AUTO); [|done].
    cbn [full_dict]. by rewrite lookup_insert_eq.
  - destruct (_get_xml_value e _ AUTO); [|done].
    cbn [full_dict]. by rewrite lookup_insert_ne.
Qed.

Lemma foldl_auto_step_lookup (e : Element) (fields : ModelFields) (k : str) :
  ∀ st,
    full_dict (foldl (auto_step e) st fields) !! k =
      if bool_decide (k ∈ map tag_of fields)
      then match _get_xml_value e k AUTO with
           | Some v => Some v
           | None => full_dict st !! k
           end
      else full_dict st !! k.
Proof.
  induction fields as [|item rest IH]; intros st; [done|].
  cbn [foldl map]. rewrite IH, auto_step_lookup.
  destruct (decide (tag_of item = k)) as [Htag|Htag].
  - rewrite (bool_decide_eq_true_2 (k ∈ tag_of item :: map tag_of rest))
      by (rewrite Htag; by left).
    case_bool_decide; by destruct (_get_xml_value e k AUTO).
  - case_bool_decide as Hin.
    + by rewrite bool_decide_eq_true_2 by (by right).
    + rewrite bool_decide_eq_false_2; [done|].
      intros [?|?]%elem_of_cons; [by subst|done].
Qed.

Lemma bind_without_extra (e : Element) (fields : ModelFields) :
  (∀ item, item ∈ fields → has_schema_extra item.2 = false) →
  (bind e fields).2 = None
  ∧ ∀ k, full_dict (bind e fields).1 !! k =
      if bool_decide (k ∈ map tag_of fields)
      then _get_xml_value e k AUTO else None.
Proof.
  intros Hall. unfold bind. rewrite bind_fields_without_extra by done.
  split; [done|]. intros k. cbn [fst]. rewrite foldl_auto_step_lookup.
  cbn [full_dict]. rewrite lookup_empty.
  case_bool_decide; [|done]. by destruct (_get_xml_value e k AUTO).
Qed.

Lemma declared_plainly_spec (item : str * FieldInfo) :
  declared_plainly item = true →
  item.1 ≠ [] ∧ has_schema_extra item.2 = false
  ∧ ET.checkpath (tag_of item) = false.
Proof.
  unfold declared_plainly. intros [[Hname Hextra]%andb_prop Hpath]%andb_prop.
  split_and!.
  - by apply truthy_true.
  - by apply negb_true_iff.
  - by apply negb_true_iff.
Qed.

(** C7 fails in the code. The [try] of lines 126-129 does turn a token
    that is no value of the enum into [AUTO]; but a field can carry a
    token only in a dict of [json_schema_extra], and line 120 validates
    that dict as a [JsonDict] first, which never returns: whenever a
    field carries such a dict, and the fields before it are declared
    plainly, [from_xml] raises [RecursionError], having logged nothing
    and read nothing of the world. *)
Theorem strategy_token_raises_RecursionError (pre post : ModelFields)
    (item : str * FieldInfo) (e : Element) (w : World) :
  (∀ x, x ∈ pre → declared_plainly x = true) →
  has_schema_extra item.2 = true →
  (∀ token, (∀ m, token ≠ JStr (strategy_value m)) →
            resolve_strategy token = AUTO)
  ∧ xml_metadata item.2 = inl RecursionError
  ∧ from_xml (pre ++ item :: post) e w = mkOutcome [] (inl RecursionError) w.
Proof.
  intros Hpre Hitem. split_and!.
  - intros token Hnot. unfold resolve_strategy.
    by rewrite XMLLookupStrategy_call_unrecognized.
  - by apply xml_metadata_raises.
  - unfold from_xml, bind. rewrite bind_fields_raises; [|..|done].
    + by rewrite foldl_auto_step_warnings.
    + intros x Hx. by apply declared_plainly_spec, Hpre.
Qed.

Lemma strategy_token_raises_RecursionError_witness :
  XMLLookupStrategy_call (JStr (lit "xpath"))
  = inl (NotAValidStrategy (JStr (lit "xpath")))
  ∧ resolve_strategy (JStr (lit "xpath")) = AUTO
  ∧ from_xml [type_by_xpath] item_with_type (stopped_at 0)
    = mkOutcome [] (inl RecursionError) (stopped_at 0).
Proof.
  split; [reflexivity|].
  destruct (strategy_token_raises_RecursionError [] [] type_by_xpath
              item_with_type (stopped_at 0))
    as (Hauto & _ & Hraises).
  - intros x Hx. by apply elem_of_nil in Hx.
  - reflexivity.
  - split; [|exact Hraises]. apply Hauto. intros m. destruct m; discriminate.
Defined.

(** ** Validation errors do not depend on the world *)

Lemma validate_field_spec (data : gmap str XmlValue) (item : str * FieldInfo)
    (w : World) :
  match field_error data item with
  | Some e => (validate_field data item w).1 = inl e
  | None => ∃ v, (validate_field data item w).1 = inr v
  end.
Proof.
  unfold field_error, validate_field.
  destruct (data !! validation_key item.1 item.2) as [input|].
  - destruct (annotation item.2 input); simpl; eauto.
  - destruct (field_default item.2) as [|v|f]; simpl; eauto.
    destruct (f w); simpl; eauto.
Qed.

Lemma validate_fields_errors (data : gmap str XmlValue) (fields : ModelFields)
    (w : World) :
  (validate_fields data fields w).1.1 = omap (field_error data) fields.
Proof.
  revert w. induction fields as [|item rest IH]; intros w; [done|].
  simpl. pose proof (validate_field_spec data item w) as Hitem.
  destruct (validate_field data item w) as [r w1]. specialize (IH w1).
  destruct (validate_fields data rest w1) as [[errors values] w2].
  simpl in *. destruct (field_error data item) as [e|].
  - rewrite Hitem. simpl. by f_equal.
  - destruct Hitem as [v ->]. done.
Qed.

Lemma from_xml_returned (fields : ModelFields) (e : Element) (w : World) :
  match (bind e fields).2 with
  | Some err => returned (from_xml fields e w) = inl err
  | None =>
      match omap (field_error (full_dict (bind e fields).1)) fields with
      | [] => ∃ m, returned (from_xml fields e w) = inr m
      | errors => returned (from_xml fields e w) = inl (ValidationError errors)
      end
  end.
Proof.
  unfold from_xml, model_validate.
  destruct (bind e fields) as [st [err|]]; [done|]. cbn [fst snd].
  pose proof (validate_fields_errors (full_dict st) fields w) as H.
  destruct (validate_fields _ fields w) as [[errors values] w']. simpl in H.
  rewrite <- H. destruct errors; simpl; eauto.
Qed.

Lemma from_xml_fails_in_any_world (fields : ModelFields) (e : Element)
    (w w' : World) (err : PyError) :
  returned (from_xml fields e w) = inl err →
  returned (from_xml fields e w') = inl err.
Proof.
  pose proof (from_xml_returned fields e w) as H.
  pose proof (from_xml_returned fields e w') as H'.
  destruct ((bind e fields).2); [congruence|].
  destruct (omap _ fields).
  - destruct H as [m ->]. done.
  - rewrite H, H'. done.
Qed.

(** ** Binding a list of elements *)

Lemma base_cls_from_xml_fails_in_any_world (cls : ListClass) (item : Element)
    (w w' : World) (err : PyError) :
  returned (base_cls_from_xml cls item w) = inl err →
  returned (base_cls_from_xml cls item w') = inl err.
Proof.
  unfold base_cls_from_xml. destruct (base_cls cls) as [err'|base]; [done|].
  apply from_xml_fails_in_any_world.
Qed.

Lemma from_xml_each_inl (cls : ListClass) (items : list Element) :
  ∀ w w' item err,
    item ∈ items →
    returned (base_cls_from_xml cls item w') = inl err →
    ∃ err', returned (from_xml_each cls items w) = inl err'
            ∧ ∃ failing,
                failing ∈ items
                ∧ returned (base_cls_from_xml cls failing w') = inl err'.
Proof.
  induction items as [|x rest IH]; intros w w' item err Hin Hfail.
  - by apply elem_of_nil in Hin.
  - cbn [from_xml_each].
    destruct (returned (base_cls_from_xml cls x w)) as [errx|m0] eqn:Hx;
      cbn [returned].
    + exists errx. split; [done|]. exists x. split; [by left|].
      by apply (base_cls_from_xml_fails_in_any_world cls x w w').
    + apply elem_of_cons in Hin as [->|Hin].
      * apply (base_cls_from_xml_fails_in_any_world cls x w' w) in Hfail.
        congruence.
      * destruct (IH (world_after (base_cls_from_xml cls x w)) w' item err
                    Hin Hfail)
          as (err' & -> & failing & Hf & Hret).
        exists err'. split; [done|]. exists failing. split; [by right|done].
Qed.

(** C5. When binding one element of the sequence fails, binding the
    sequence fails: [validate_xml] raises the exception of a failing
    element and returns no list. *)
Theorem list_bind_fails_as_a_whole (cls : ListClass)
    (items : list Element) (item : Element) (w w' : World) (err : PyError) :
  item ∈ items →
  returned (base_cls_from_xml cls item w') = inl err →
  ∃ err', returned (validate_xml cls (VElems items) w) = inl err'
          ∧ ∃ failing,
              failing ∈ items
              ∧ returned (base_cls_from_xml cls failing w') = inl err'.
Proof.
  intros Hin Hfail.
  destruct (from_xml_each_inl cls items w w' item err Hin Hfail)
    as (err' & Hret & Hfailing).
  exists err'. split; [|done]. cbn [validate_xml returned]. by rewrite Hret.
Qed.

Lemma list_bind_fails_as_a_whole_witness :
  ∃ err',
    returned (validate_xml BGGPollList
                (VElems [poll (lit "suggested_numplayers")
                           (lit "User Suggested Number of Players") (lit "12");
                         poll_without_totalvotes])
                (stopped_at 0)) = inl err'.
Proof.
  destruct (list_bind_fails_as_a_whole BGGPollList
              [poll (lit "suggested_numplayers")
                 (lit "User Suggested Number of Players") (lit "12");
               poll_without_totalvotes]
              poll_without_totalvotes (stopped_at 0) (stopped_at 0)
              (TypeError (lit "Items schema not found for BGGPollList")))
    as (err' & Hret & _).
  - apply list_elem_of_In. right. left. reflexivity.
  - reflexivity.
  - exists err'. exact Hret.
Defined.

(** C6 fails in the code. In the core schema of a subclass of
    [BGGBaseList] the schema of the list lies inside the schema of the
    [before] validator, where [base_cls] does not look for it: for every
    input that is not empty, [validate_xml] raises [TypeError] at the
    first element, before anything is bound, and returns no list. Only
    the empty input gives the empty list. *)
Theorem list_bind_raises_TypeError (cls : ListClass) (base : ModelFields)
    (item : Element) (rest : list Element) (w : World) :
  __pydantic_core_schema__ cls = BGGBaseList_core_schema base →
  base_cls cls
  = inl (TypeError (lit "Items schema not found for " ++ __name__ cls))
  ∧ validate_xml cls (VElems (item :: rest)) w
    = mkOutcome []
        (inl (TypeError (lit "Items schema not found for " ++ __name__ cls)))
        w
  ∧ validate_xml cls (VElems []) w = mkOutcome [] (inr (Instances [])) w.
Proof.
  intros Hschema.
  assert (base_cls cls
          = inl (TypeError (lit "Items schema not found for " ++ __name__ cls)))
    as Hbase by (unfold base_cls; by rewrite Hschema).
  split_and!; [done| |done].
  cbn [validate_xml from_xml_each]. unfold base_cls_from_xml.
  by rewrite Hbase.
Qed.

Lemma list_bind_raises_TypeError_witness :
  returned (validate_xml BGGPollList
              (VElems [poll (lit "suggested_numplayers")
                         (lit "User Suggested Number of Players") (lit "12")])
              (stopped_at 0))
  = inl (TypeError (lit "Items schema not found for BGGPollList")).
Proof.
  destruct (list_bind_raises_TypeError BGGPollList BGGPoll
              (poll (lit "suggested_numplayers")
                 (lit "User Suggested Number of Players") (lit "12"))
              [] (stopped_at 0) eq_refl)
    as (_ & Hraises & _).
  rewrite Hraises. reflexivity.
Defined.

(** ** What the validator returns *)

Lemma validate_fields_values (data : gmap str XmlValue) (fields : ModelFields) :
  ∀ w,
    (validate_fields data fields w).1.1 = [] →
    ∀ i item, fields !! i = Some item →
      ∃ v w', (validate_fields data fields w).1.2 !! i = Some (item.1, v)
              ∧ (validate_field data item w').1 = inr v.
Proof.
  induction fields as [|x rest IH]; intros w Herr i item Hi; [done|].
  cbn [validate_fields] in *.
  destruct (validate_field data x w) as [r w1] eqn:Hx.
  specialize (IH w1).
  destruct (validate_fields data rest w1) as [[errors values] w2].
  destruct r as [err|v]; cbn [fst snd] in *; [done|].
  destruct i as [|i]; cbn in Hi.
  - injection Hi as <-. exists v, w. by rewrite Hx.
  - destruct (IH Herr i item Hi) as (v' & w' & Hv & Hw). by exists v', w'.
Qed.

Lemma from_xml_inr (fields : ModelFields) (e : Element) (w : World)
    (m : ModelInstance) :
  returned (from_xml fields e w) = inr m →
  (validate_fields (full_dict (bind e fields).1) fields w).1 = ([], m).
Proof.
  unfold from_xml, model_validate.
  destruct (bind e fields) as [st [err|]]; [done|]. cbn [fst].
  destruct (validate_fields _ fields w) as [[errors values] w'].
  destruct errors; cbn; congruence.
Qed.



(** ** Required fields and defaults *)










(** ** Dependence on the world *)

Lemma validate_field_world_free (data : gmap str XmlValue)
    (item : str * FieldInfo) (w w' : World) :
  uses_factory item = false
  ∨ is_Some (data !! validation_key item.1 item.2) →
  (validate_field data item w).1 = (validate_field data item w').1.
Proof.
  unfold validate_field, uses_factory.
  destruct (data !! validation_key item.1 item.2) as [input|].
  - intros _. by destruct (annotation item.2 input).
  - intros [Hno|[x Hx]]; [|done].
    by destruct (field_default item.2).
Qed.

Lemma validate_field_no_factory (data : gmap str XmlValue)
    (item : str * FieldInfo) (w : World) :
  uses_factory item = false → (validate_field data item w).2 = w.
Proof.
  unfold validate_field, uses_factory.
  destruct (data !! validation_key item.1 item.2) as [input|].
  - intros _. by destruct (annotation item.2 input).
  - by destruct (field_default item.2).
Qed.

Lemma validate_fields_no_factory (data : gmap str XmlValue)
    (fields : ModelFields) :
  (∀ item, item ∈ fields → uses_factory item = false) →
  ∀ w w',
    (validate_fields data fields w).1 = (validate_fields data fields w').1
    ∧ (validate_fields data fields w).2 = w.
Proof.
  induction fields as [|item rest IH]; intros Hall w w'; [done|].
  cbn [validate_fields].
  assert (uses_factory item = false) as Hitem by (apply Hall; by left).
  pose proof (validate_field_world_free data item w w' (or_introl Hitem)) as Hr.
  pose proof (validate_field_no_factory data item w Hitem) as Hw.
  pose proof (validate_field_no_factory data item w' Hitem) as Hw'.
  destruct (validate_field data item w) as [r w1].
  destruct (validate_field data item w') as [r' w1'].
  cbn [fst snd] in *. subst r' w1 w1'.
  assert (∀ x, x ∈ rest → uses_factory x = false) as Hrest_free
    by (intros x Hx; apply Hall; by right).
  destruct (IH Hrest_free w w') as [Hrest Hworld].
  destruct (validate_fields data rest w) as [[errors values] w2].
  destruct (validate_fields data rest w') as [[errors' values'] w2'].
  cbn [fst snd] in *. injection Hrest as <- <-. subst w2.
  by destruct r.
Qed.

(** C2, as the code has it. The warnings [from_xml] logs and the errors
    it raises are the same whatever the clock reads; two successful binds
    of the same element against the same schema agree on every field
    that a default factory did not fill; and against a schema without
    default factory the result is the same and the world is left
    untouched. *)
Theorem from_xml_deterministic_up_to_factories (fields : ModelFields)
    (e : Element) (w1 w2 : World) :
  logged (from_xml fields e w1) = logged (from_xml fields e w2)
  ∧ (∀ errors,
       returned (from_xml fields e w1) = inl errors →
       returned (from_xml fields e w2) = inl errors)
  ∧ (∀ m1 m2 i item,
       returned (from_xml fields e w1) = inr m1 →
       returned (from_xml fields e w2) = inr m2 →
       fields !! i = Some item →
       uses_factory item = false
       ∨ is_Some (full_dict (bind e fields).1 !! validation_key item.1 item.2) →
       m1 !! i = m2 !! i)
  ∧ ((∀ item, item ∈ fields → uses_factory item = false) →
     returned (from_xml fields e w1) = returned (from_xml fields e w2)
     ∧ world_after (from_xml fields e w1) = w1).
Proof.
  split_and!.
  - unfold from_xml. destruct (bind e fields) as [st [err|]]; [done|].
    by destruct (model_validate _ _ w1), (model_validate _ _ w2).
  - intros errors. apply from_xml_fails_in_any_world.
  - intros m1 m2 i item Hm1%from_xml_inr Hm2%from_xml_inr Hi Hfree.
    destruct (validate_fields_values (full_dict (bind e fields).1) fields w1)
      with (i := i) (item := item) as (v1 & w1' & Hv1 & Hf1);
      [by rewrite Hm1|done|].
    destruct (validate_fields_values (full_dict (bind e fields).1) fields w2)
      with (i := i) (item := item) as (v2 & w2' & Hv2 & Hf2);
      [by rewrite Hm2|done|].
    rewrite Hm1 in Hv1. rewrite Hm2 in Hv2. cbn [snd] in *.
    rewrite Hv1, Hv2. do 2 f_equal.
    rewrite (validate_field_world_free _ item w1' w2' Hfree) in Hf1.
    congruence.
  - intros Hnone. unfold from_xml, model_validate.
    destruct (bind e fields) as [st [err|]]; [done|].
    destruct (validate_fields_no_factory (full_dict st) fields
                Hnone w1 w2) as [Hsame Hworld].
    destruct (validate_fields _ fields w1) as [[errors values] w1'].
    destruct (validate_fields _ fields w2) as [[errors' values'] w2'].
    cbn [fst snd] in *. injection Hsame as <- <-. subst w1'.
    by destruct errors.
Qed.

Lemma from_xml_deterministic_up_to_factories_witness :
  returned (from_xml BGGPoll
              (poll (lit "suggested_numplayers")
                 (lit "User Suggested Number of Players") (lit "12"))
              (stopped_at 0))
  = returned (from_xml BGGPoll
                (poll (lit "suggested_numplayers")
                   (lit "User Suggested Number of Players") (lit "12"))
                (stopped_at 1)).
Proof.
  destruct (from_xml_deterministic_up_to_factories BGGPoll
              (poll (lit "suggested_numplayers")
                 (lit "User Suggested Number of Players") (lit "12"))
              (stopped_at 0) (stopped_at 1))
    as (_ & _ & _ & Hsame).
  destruct Hsame as [Hret _]; [|exact Hret].
  intros item Hin. apply list_elem_of_In in Hin.
  destruct Hin as [<-|[<-|[<-|[<-|[]]]]]; reflexivity.
Defined.

(** C2, as the specification words it, fails: the same element bound
    twice against a schema with [fetched_at] gives two different records
    when the clock has moved in between. *)
Lemma fetched_at_depends_on_clock :
  returned (from_xml [fetched_at] item_with_empty (stopped_at 0))
  = inr [(lit "fetched_at", PDatetime 0)]
  ∧ returned (from_xml [fetched_at] item_with_empty (stopped_at 1))
    = inr [(lit "fetched_at", PDatetime 1)]
  ∧ returned (from_xml [fetched_at] item_with_empty (stopped_at 0))
    ≠ returned (from_xml [fetched_at] item_with_empty (stopped_at 1)).
Proof. split_and!; [reflexivity|reflexivity|discriminate]. Qed.

(** * Further properties of the binder *)

(** ** What [AUTO] returns *)

(** X1. For a tag that is a plain name, [AUTO] is absent exactly when
    the element has no attribute of that name and no direct child of
    that name. *)
Theorem auto_absent_iff (e : Element) (t : str) :
  ET.checkpath t = false →
  _get_xml_value e t AUTO = None
  ↔ ET.get e t = None ∧ Forall (λ c, tag c ≠ t) (children e).
Proof.
  intros Hplain. rewrite <- (find_None e t Hplain). cbn [_get_xml_value].
  destruct (ET.get e t) as [v|]; [by split; [|intros [? _]]|].
  destruct (ET.find e t) as [child|] eqn:Hfind.
  - split; [|by intros [_ ?]].
    destruct (attrib child !! lit "value"); [done|].
    destruct (text child); [by destruct (_ && _)|done].
  - rewrite findtext_find, Hfind. cbn [fmap option_fmap option_map].
    by rewrite (find_None_findall _ _ Hfind).
Qed.

Lemma auto_absent_iff_witness :
  _get_xml_value item_with_links (lit "description") AUTO = None.
Proof.
  apply (proj2 (auto_absent_iff item_with_links (lit "description") eq_refl)).
  split; [reflexivity|]. repeat constructor; discriminate.
Defined.

(** X2. [AUTO] never returns a list of elements: its result is a string,
    or the first child of that name when that child has no [value]
    attribute and no text beyond blanks. *)
Theorem auto_never_returns_a_list (e : Element) (t : str) (v : XmlValue) :
  _get_xml_value e t AUTO = Some v →
  match v with
  | VStr _ => True
  | VElem child =>
      ET.get e t = None
      ∧ ET.find e t = Some child
      ∧ attrib child !! lit "value" = None
      ∧ strip (default [] (text child)) = []
  | VElems _ => False
  end.
Proof.
  cbn [_get_xml_value].
  destruct (ET.get e t) as [a|]; [by intros [= <-]|].
  destruct (ET.find e t) as [child|] eqn:Hfind.
  - destruct (attrib child !! lit "value") eqn:Hvalue; [by intros [= <-]|].
    destruct (text child) as [txt|] eqn:Htxt.
    + destruct (truthy txt && truthy (strip txt)) eqn:Hcond;
        intros [= <-]; [done|]. split_and!; [done..|].
      rewrite Htxt. change (strip txt = []). destruct txt as [|c txt]; [done|].
      cbn [truthy andb] in Hcond. by destruct (strip (c :: txt)).
    + intros [= <-]. split_and!; [done..|]. by rewrite Htxt.
  - rewrite findtext_find, Hfind. cbn [fmap option_fmap option_map].
    by rewrite (find_None_findall _ _ Hfind).
Qed.

Lemma auto_never_returns_a_list_witness :
  ET.get item_with_blank (lit "a") = None
  ∧ ET.find item_with_blank (lit "a")
    = Some (element (lit "a") [] (Some (lit "  ")) [])
  ∧ strip (lit "  ") = [].
Proof.
  destruct (auto_never_returns_a_list item_with_blank (lit "a")
              (VElem (element (lit "a") [] (Some (lit "  ")) [])))
    as (Hget & Hfind & _ & Hstrip); [reflexivity|].
  split_and!; [exact Hget|exact Hfind|exact Hstrip].
Defined.

(** ** Trimming *)

Lemma lstrip_head (s : str) (c : N) :
  head (lstrip s) = Some c → isspace c = false.
Proof.
  induction s as [|a s IH]; [done|]. cbn [lstrip].
  destruct (isspace a) eqn:Ha; [done|]. by intros [= <-].
Qed.

Lemma lstrip_suffix (s : str) : ∃ ws, s = ws ++ lstrip s.
Proof.
  induction s as [|a s [ws IH]]; [by exists []|]. cbn [lstrip].
  destruct (isspace a); [|by exists []].
  exists (a :: ws). cbn. by f_equal.
Qed.

Lemma rstrip_prefix (s : str) : ∃ ws, s = rstrip s ++ ws.
Proof.
  unfold rstrip. destruct (lstrip_suffix (rev s)) as [ws Hws].
  exists (rev ws). rewrite <- rev_app_distr, <- Hws. by rewrite rev_involutive.
Qed.

Lemma rstrip_last (s : str) (c : N) :
  last (rstrip s) = Some c → isspace c = false.
Proof.
  unfold rstrip. intros Hlast. apply (lstrip_head (rev s)).
  destruct (lstrip (rev s)) as [|a l]; [done|].
  cbn [rev] in Hlast. rewrite last_snoc in Hlast. done.
Qed.

Lemma strip_head (s : str) (c : N) :
  head (strip s) = Some c → isspace c = false.
Proof.
  unfold strip. intros Hhead. apply (lstrip_head s).
  destruct (rstrip_prefix (lstrip s)) as [ws Hws]. rewrite Hws.
  rewrite head_app. by rewrite Hhead.
Qed.

(** X3. A string that [AUTO] takes from the text of a child is that text
    trimmed: it is not empty and neither starts nor ends with
    whitespace. *)
Theorem auto_text_is_trimmed (e : Element) (t : str) (child : Element)
    (s : str) :
  ET.get e t = None →
  ET.find e t = Some child →
  attrib child !! lit "value" = None →
  _get_xml_value e t AUTO = Some (VStr s) →
  (∃ txt, text child = Some txt ∧ s = strip txt)
  ∧ s ≠ []
  ∧ (∀ c, head s = Some c → isspace c = false)
  ∧ (∀ c, last s = Some c → isspace c = false).
Proof.
  intros Hget Hfind Hvalue. cbn [_get_xml_value].
  rewrite Hget, Hfind, Hvalue.
  destruct (text child) as [txt|]; [|done].
  destruct (truthy txt && truthy (strip txt)) eqn:Hcond; [|done].
  intros [= <-]. apply andb_prop in Hcond as [_ Hstrip].
  split_and!.
  - by exists txt.
  - by apply truthy_true.
  - apply strip_head.
  - apply rstrip_last.
Qed.

Lemma auto_text_is_trimmed_witness :
  _get_xml_value item_with_description (lit "description") AUTO
  = Some (VStr (lit "Wingspan"))
  ∧ lit "Wingspan" ≠ [].
Proof.
  split; [reflexivity|].
  apply (auto_text_is_trimmed item_with_description (lit "description")
           (element (lit "description") [] (Some (lit "  Wingspan ")) [])
           (lit "Wingspan")); reflexivity.
Defined.

(** ** The dictionary and the log of [from_xml] *)

(** X4. For a model whose fields are declared plainly, the loop of
    [from_xml] ends without an exception, and the dictionary it builds
    holds under the tag of each field what [AUTO] finds under that tag,
    and nothing under any other key. *)
Theorem bind_plainly_declared (e : Element) (fields : ModelFields) :
  (∀ item, item ∈ fields → declared_plainly item = true) →
  (bind e fields).2 = None
  ∧ (∀ item, item ∈ fields →
       full_dict (bind e fields).1 !! tag_of item = field_value e item)
  ∧ (∀ k, (∀ item, item ∈ fields → tag_of item ≠ k) →
          full_dict (bind e fields).1 !! k = None).
Proof.
  intros Hplain.
  destruct (bind_without_extra e fields) as [Hbound Hdict].
  { intros x Hx. by apply declared_plainly_spec, Hplain. }
  split_and!; [done| |].
  - intros item Hin. rewrite Hdict, bool_decide_eq_true_2; [done|].
    apply list_elem_of_In, in_map, list_elem_of_In, Hin.
  - intros k Hnone. rewrite Hdict, bool_decide_eq_false_2; [done|].
    intros (item & Htag & Hin%list_elem_of_In)%list_elem_of_In%in_map_iff.
    by destruct (Hnone item Hin).
Qed.

Lemma bind_plainly_declared_witness :
  full_dict (bind (poll (lit "suggested_numplayers")
                     (lit "User Suggested Number of Players") (lit "12"))
               BGGPoll).1 !! lit "totalvotes"
  = Some (VStr (lit "12")).
Proof.
  destruct (bind_plainly_declared
              (poll (lit "suggested_numplayers")
                 (lit "User Suggested Number of Players") (lit "12")) BGGPoll)
    as (_ & Hfields & _).
  - intros item Hin. apply list_elem_of_In in Hin.
    destruct Hin as [<-|[<-|[<-|[<-|[]]]]]; reflexivity.
  - apply (Hfields total_votes). apply list_elem_of_In. right. right. by left.
Defined.

(** X5. [from_xml] never logs a warning, whatever the fields of the
    model carry: a field is bound under [AUTO], which logs nothing, or
    carries a dict of XML metadata, whose validation ends the loop. *)
Theorem from_xml_never_warns (fields : ModelFields) (e : Element) (w : World) :
  logged (from_xml fields e w) = []
  ∧ warnings (bind e fields).1 = [].
Proof.
  assert (warnings (bind e fields).1 = []) as Hlog
    by apply bind_fields_warnings.
  split; [|done].
  unfold from_xml. destruct (bind e fields) as [st [err|]]; [done|].
  by destruct (model_validate _ _ w).
Qed.

(** X7. The constructor of the enum inverts [.value]: it returns a member
    exactly for the string that is the value of that member. *)
Theorem XMLLookupStrategy_round_trip (token : JsonValue)
    (m : XMLLookupStrategy) :
  XMLLookupStrategy_call token = inr m ↔ token = JStr (strategy_value m).
Proof.
  split; [|intros ->; apply XMLLookupStrategy_call_member].
  destruct token as [| | |s| |]; try done. unfold XMLLookupStrategy_call.
  destruct (list_find (λ m, strategy_value m = s) all_strategies)
    as [[i m']|] eqn:Hfind; [|done].
  apply list_find_Some in Hfind as (_ & <- & _). by intros [= ->].
Qed.

(** ** From the extracted value to the field *)

Lemma validation_key_is_tag (item : str * FieldInfo) :
  alias item.2 ≠ Some [] → item.1 ≠ [] →
  validation_key item.1 item.2 = tag_of item.
Proof.
  unfold validation_key, tag_of, py_or.
  destruct (alias item.2) as [[|c a]|]; done.
Qed.

(** X8. In a model whose fields are declared plainly, when the lookup of
    a field whose alias is not empty finds a value, the instance holds
    for it the coercion of exactly that value; and when the type of the
    field cannot take the value, the construction fails with an error
    for that key and value. *)
Theorem extracted_value_reaches_its_field (pre post : ModelFields)
    (name : str) (field_info : FieldInfo) (e : Element) (w : World)
    (input : XmlValue) :
  let fields := pre ++ (name, field_info) :: post in
  (∀ item, item ∈ fields → declared_plainly item = true) →
  alias field_info ≠ Some [] →
  field_value e (name, field_info) = Some input →
  (∀ m, returned (from_xml fields e w) = inr m →
        ∃ v, annotation field_info input = Some v
             ∧ m !! length pre = Some (name, v))
  ∧ (annotation field_info input = None →
     ∃ errors, returned (from_xml fields e w) = inl (ValidationError errors)
               ∧ InvalidType (validation_key name field_info) input ∈ errors).
Proof.
  intros fields Hplain Halias Hown.
  assert ((name, field_info) ∈ fields) as Hin
    by (apply elem_of_app; right; by left).
  destruct (declared_plainly_spec _ (Hplain _ Hin)) as (Hname & _ & _).
  destruct (bind_without_extra e fields) as [Hbound Hdict].
  { intros x Hx. by apply declared_plainly_spec, Hplain. }
  assert (full_dict (bind e fields).1 !! validation_key name field_info
          = Some input) as Hdata.
  { pose proof (validation_key_is_tag (name, field_info) Halias Hname) as Hkey.
    cbn [fst snd] in Hkey. rewrite Hkey.
    rewrite Hdict, bool_decide_eq_true_2; [done|].
    apply list_elem_of_In, in_map, list_elem_of_In, Hin. }
  split.
  - intros m Hm%from_xml_inr.
    destruct (validate_fields_values (full_dict (bind e fields).1) fields w)
      with (i := length pre) (item := (name, field_info))
      as (v & w' & Hv & Hfield).
    + by rewrite Hm.
    + unfold fields. by rewrite list_lookup_middle.
    + rewrite Hm in Hv. cbn [fst snd] in Hv. exists v. split; [|done].
      unfold validate_field in Hfield. cbn [fst snd] in Hfield.
      rewrite Hdata in Hfield.
      destruct (annotation field_info input); cbn in Hfield; congruence.
  - intros Hrefused.
    assert (InvalidType (validation_key name field_info) input
            ∈ omap (field_error (full_dict (bind e fields).1)) fields) as Herr.
    { apply list_elem_of_omap. exists (name, field_info). split; [done|].
      unfold field_error. cbn [fst snd]. by rewrite Hdata, Hrefused. }
    pose proof (from_xml_returned fields e w) as Hret.
    rewrite Hbound in Hret.
    destruct (omap _ fields) as [|err errs].
    + by apply elem_of_nil in Herr.
    + by exists (err :: errs).
Qed.

Lemma extracted_value_reaches_its_field_witness :
  ∃ m, returned (from_xml BGGPoll
                   (poll (lit "suggested_numplayers")
                      (lit "User Suggested Number of Players") (lit " -12 "))
                   (stopped_at 0)) = inr m
       ∧ m !! 2%nat = Some (lit "total_votes", PInt (-12)).
Proof.
  destruct (extracted_value_reaches_its_field [name; title] [results]
              (lit "total_votes") total_votes.2
              (poll (lit "suggested_numplayers")
                 (lit "User Suggested Number of Players") (lit " -12 "))
              (stopped_at 0) (VStr (lit " -12 ")))
    as [Hvalue _].
  - intros item Hin. apply list_elem_of_In in Hin.
    destruct Hin as [<-|[<-|[<-|[<-|[]]]]]; reflexivity.
  - discriminate.
  - reflexivity.
  - eexists. split; [reflexivity|].
    destruct (Hvalue _ eq_refl) as (v & Hann & Hm).
    vm_compute in Hann. injection Hann as <-. exact Hm.
Defined.

(** X10. For a model whose fields are declared plainly, none with an
    empty alias, [tags] lists the tags [from_xml] reads, field by field,
    and every key of the dictionary it builds is one of them. *)
Theorem tags_are_the_bound_tags (fields : ModelFields) :
  (∀ item, item ∈ fields →
     declared_plainly item = true ∧ alias item.2 ≠ Some []) →
  map tag_of fields = tags fields
  ∧ ∀ e k, is_Some (full_dict (bind e fields).1 !! k) → k ∈ tags fields.
Proof.
  intros Hplain.
  assert (map tag_of fields = tags fields) as Htags.
  { unfold tags. apply map_ext_in. intros item Hin%list_elem_of_In.
    destruct (Hplain item Hin) as [_ Halias]. unfold tag_of, py_or.
    destruct (alias item.2) as [[|c a]|]; done. }
  split; [done|]. intros e k [v Hv].
  destruct (bind_without_extra e fields) as [_ Hdict].
  { intros x Hx. by apply declared_plainly_spec, Hplain. }
  rewrite Hdict in Hv. rewrite <- Htags. by case_bool_decide.
Qed.

Lemma tags_are_the_bound_tags_witness :
  tags BGGPoll = [lit "name"; lit "title"; lit "totalvotes"; lit "results"]
  ∧ map tag_of BGGPoll = tags BGGPoll.
Proof.
  split; [reflexivity|].
  apply (tags_are_the_bound_tags BGGPoll).
  intros item Hin. apply list_elem_of_In in Hin.
  destruct Hin as [<-|[<-|[<-|[<-|[]]]]]; (split; [reflexivity|discriminate]).
Defined.

(** X26. [XMLField] never returns a descriptor: the validation of a
    [JsonValue] ends, whatever the data, in a call of the class that
    validates again, so that [JsonValue.model_validate] raises
    [RecursionError] for every input and with every depth of stack, and
    [XMLField], which validates the strategy it is given, raises it for
    every choice of its arguments. *)
Theorem XMLField_raises_RecursionError (lookup_strategy : XMLLookupStrategy)
    (xml_tag : option str) (extra : list (str * JsonValue))
    (alias_ : option str) (default_ : FieldDefault)
    (annotation_ : XmlValue → option PyValue) :
  (∀ depth data, validate_plain_value depth data = inl RecursionError)
  ∧ XMLField lookup_strategy xml_tag extra alias_ default_ annotation_
    = inl RecursionError.
Proof.
  split; [apply validate_plain_value_raises|].
  unfold XMLField. destruct extra as [|entry entries].
  - cbn [JsonDict_model_validate].
    by rewrite JsonValue_model_validate_raises.
  - by rewrite JsonDict_model_validate_raises.
Qed.

(** * When an explicit strategy finds nothing *)

(** X20. For a tag that is a plain name, [TEXT] and [FINDALL] are absent
    exactly when no direct child has the tag, [ATTRIBUTE] exactly when
    the element has no such attribute, and [FIND] also when the first
    child of that tag has neither a [value] attribute nor a text: for
    [<a/>], [TEXT] gives the empty string where [FIND] gives nothing. *)
Theorem explicit_strategy_absent_iff (e : Element) (t : str) :
  ET.checkpath t = false →
  (_get_xml_value e t ATTRIBUTE = None ↔ attrib e !! t = None)
  ∧ (_get_xml_value e t TEXT = None
     ↔ Forall (λ c, tag c ≠ t) (children e))
  ∧ (_get_xml_value e t FINDALL = None
     ↔ Forall (λ c, tag c ≠ t) (children e))
  ∧ (_get_xml_value e t FIND = None
     ↔ Forall (λ c, tag c ≠ t) (children e)
       ∨ ∃ child, ET.find e t = Some child
                  ∧ attrib child !! lit "value" = None
                  ∧ text child = None).
Proof.
  intros Hplain.
  rewrite <- (find_None e t Hplain). cbn [_get_xml_value]. split_and!.
  - unfold ET.get. by destruct (attrib e !! t).
  - rewrite findtext_find. by destruct (ET.find e t).
  - rewrite find_head_findall. by destruct (ET.findall e t).
  - destruct (ET.find e t) as [child|]; [|by split; [left|]].
    split.
    + intros Hnone. right. exists child.
      destruct (attrib child !! lit "value"); [done|].
      by destruct (text child).
    + intros [?|(child' & [= <-] & -> & ->)]; done.
Qed.

Lemma explicit_strategy_absent_iff_witness :
  _get_xml_value item_with_empty (lit "a") FIND = None
  ∧ _get_xml_value item_with_empty (lit "a") TEXT ≠ None.
Proof.
  destruct (explicit_strategy_absent_iff item_with_empty (lit "a") eq_refl)
    as (_ & Htext & _ & Hfind).
  split.
  - apply Hfind. right. exists (element (lit "a") [] None []).
    split_and!; reflexivity.
  - intros Hnone%Htext. inversion Hnone as [|? ? Hhead]. by apply Hhead.
Defined.
(** * The accessors of a game *)

(** X11. [primary_name] is the value of the first name of type
    [primary], whatever follows it, and the decimal form of the id when
    no name is of that type. *)
Theorem primary_name_first_primary (id : Z) (names : list Game.Name) :
  (Forall (λ n, Game.name_type n ≠ lit "primary") names →
   Game.primary_name id names = Game.py_str_int id)
  ∧ (∀ pre n post,
       names = pre ++ n :: post →
       Forall (λ n, Game.name_type n ≠ lit "primary") pre →
       Game.name_type n = lit "primary" →
       Game.primary_name id names = Game.value n).
Proof.
  unfold Game.primary_name. split.
  - intros Hnone.
    assert (filter (λ n, Game.name_type n = lit "primary") names = []) as ->;
      [|done].
    induction Hnone as [|n names Hn _ IH]; [done|].
    by rewrite filter_cons_False.
  - intros pre n post -> Hpre Hn. rewrite filter_app.
    assert (filter (λ n, Game.name_type n = lit "primary") pre = []) as ->.
    { induction Hpre as [|x xs Hx _ IH]; [done|].
      by rewrite filter_cons_False. }
    by rewrite filter_cons_True.
Qed.

Lemma primary_name_first_primary_witness :
  Game.primary_name 266192
    [Game.mkName (lit "alternate") (lit "Fesztav") 1;
     Game.mkName (lit "primary") (lit "Wingspan") 1;
     Game.mkName (lit "primary") (lit "Other") 1]
  = lit "Wingspan"
  ∧ Game.primary_name 266192 [Game.mkName (lit "alternate") (lit "Fesztav") 1]
    = lit "266192".
Proof.
  split.
  - apply (proj2 (primary_name_first_primary 266192 _)
             [Game.mkName (lit "alternate") (lit "Fesztav") 1]
             (Game.mkName (lit "primary") (lit "Wingspan") 1)
             [Game.mkName (lit "primary") (lit "Other") 1]);
      [reflexivity| |reflexivity].
    constructor; [discriminate|constructor].
  - apply (proj1 (primary_name_first_primary 266192
                    [Game.mkName (lit "alternate") (lit "Fesztav") 1])).
    constructor; [discriminate|constructor].
Defined.

(** X12. [bgg_rank] is [int] of the value of the first entry of [ranks]
    that is of type [boardgame] with a value that is neither false nor
    ["Not Ranked"]: the entries before it are skipped, an error of [int]
    is raised, and without such an entry, or without statistics, the
    rank is [None]. *)
Theorem bgg_rank_first_ranked_entry {Err : Type} (int_ : JsonValue → Err + Z)
    (ranks : list (gmap str JsonValue)) :
  Game.bgg_rank int_ None = inr None
  ∧ (Forall (λ rank, Game.rank_value rank = None) ranks →
     Game.bgg_rank int_ (Some ranks) = inr None)
  ∧ (∀ pre rank post value,
       ranks = pre ++ rank :: post →
       Forall (λ rank, Game.rank_value rank = None) pre →
       Game.rank_value rank = Some value →
       Game.bgg_rank int_ (Some ranks) =
         match int_ value with
         | inl err => inl err
         | inr n => inr (Some n)
         end).
Proof.
  assert (∀ l, Game.bgg_rank int_ (Some l) = Game.bgg_rank_loop int_ l)
    as Hloop by (by intros []).
  split_and!; [done| |].
  - intros Hnone. rewrite Hloop.
    induction Hnone as [|rank rest Hrank _ IH]; [done|].
    cbn [Game.bgg_rank_loop]. by rewrite Hrank.
  - intros pre rank post value -> Hpre Hrank. rewrite Hloop.
    induction Hpre as [|x xs Hx _ IH].
    + cbn [app Game.bgg_rank_loop]. by rewrite Hrank.
    + cbn [app Game.bgg_rank_loop]. by rewrite Hx.
Qed.

Lemma bgg_rank_first_ranked_entry_witness :
  Game.bgg_rank Game.int_of_literal
    (Some [ {[ lit "type" := JStr (lit "family");
               lit "value" := JStr (lit "5") ]};
            {[ lit "type" := JStr (lit "boardgame");
               lit "value" := JStr (lit "Not Ranked") ]};
            {[ lit "type" := JStr (lit "boardgame");
               lit "value" := JStr (lit "21") ]} ])
  = inr (Some 21%Z).
Proof.
  apply (proj2 (proj2 (bgg_rank_first_ranked_entry Game.int_of_literal _))
           [ {[ lit "type" := JStr (lit "family");
                lit "value" := JStr (lit "5") ]};
             {[ lit "type" := JStr (lit "boardgame");
                lit "value" := JStr (lit "Not Ranked") ]} ]
           {[ lit "type" := JStr (lit "boardgame");
              lit "value" := JStr (lit "21") ]}
           [] (JStr (lit "21"))).
  - reflexivity.
  - repeat (constructor; [reflexivity|]). constructor.
  - reflexivity.
Defined.


(** * Retrying *)

Section retry_properties.

Context {F R : Type} (fadd fmul : F → F → F) (of_int : Z → F).
Context (func : Z → Retry.PyException + R) (max_retries : Z)
  (backoff_factor : F).

Local Open Scope Z_scope.

Lemma get_delay_in_range (attempt : Z) (base_delay : F) :
  attempt < 1024 →
  ∃ delay,
    Retry.get_delay fadd fmul of_int attempt backoff_factor base_delay
    = inr delay.
Proof.
  intros Hlt. unfold Retry.get_delay.
  rewrite (proj2 (Z.ltb_lt _ _) Hlt). by eexists.
Qed.

Lemma get_delay_overflow (attempt : Z) (base_delay : F) :
  1024 ≤ attempt →
  Retry.get_delay fadd fmul of_int attempt backoff_factor base_delay
  = inl (Retry.OverflowError (lit "int too large to convert to float")).
Proof.
  intros Hge. unfold Retry.get_delay. by rewrite (proj2 (Z.ltb_ge _ _) Hge).
Qed.

Lemma attempts_loop_cons (attempt : Z) (rest : list Z)
    (last_exception : option Retry.PyException) (e : Retry.PyException)
    (delay : F) :
  func attempt = inl e →
  Retry.is_exception e = true →
  attempt < max_retries →
  Retry.get_delay fadd fmul of_int attempt backoff_factor
    (Retry.base_delay_after of_int (func attempt)) = inr delay →
  Retry.attempts_loop fadd fmul of_int func max_retries backoff_factor
    (attempt :: rest) last_exception
  = let next :=
      Retry.attempts_loop fadd fmul of_int func max_retries backoff_factor
        rest (Some e) in
    (Retry.Call attempt :: Retry.LogWarning delay attempt e
       :: Retry.Sleep delay :: next.1,
     next.2).
Proof.
  intros Hfunc Hexc Hlt. cbn [Retry.attempts_loop]. rewrite Hfunc.
  cbn [Retry.base_delay_after].
  apply Z.ltb_lt in Hlt. rewrite Hlt.
  destruct (Retry.attempts_loop _ _ _ _ _ _ rest (Some e)) as [events outcome].
  destruct (Retry.is_rate_limit e); [by intros ->|].
  rewrite Hexc. by intros ->.
Qed.

Lemma attempts_loop_overflow (attempt : Z) (rest : list Z)
    (last_exception : option Retry.PyException) (e : Retry.PyException) :
  func attempt = inl e →
  Retry.is_exception e = true →
  attempt < max_retries →
  1024 ≤ attempt →
  Retry.attempts_loop fadd fmul of_int func max_retries backoff_factor
    (attempt :: rest) last_exception
  = ([Retry.Call attempt],
     inl (Retry.OverflowError (lit "int too large to convert to float"))).
Proof.
  intros Hfunc Hexc Hlt Hge. cbn [Retry.attempts_loop]. rewrite Hfunc.
  apply Z.ltb_lt in Hlt. rewrite Hlt, !get_delay_overflow by done.
  destruct (Retry.is_rate_limit e); [done|]. by rewrite Hexc.
Qed.

Lemma attempts_loop_last (attempt : Z) (rest : list Z)
    (last_exception : option Retry.PyException) (e : Retry.PyException) :
  func attempt = inl e →
  Retry.is_exception e = true →
  max_retries ≤ attempt →
  Retry.attempts_loop fadd fmul of_int func max_retries backoff_factor
    (attempt :: rest) last_exception
  = ([Retry.Call attempt; Retry.LogError e], inl e).
Proof.
  intros Hfunc Hexc Hge. cbn [Retry.attempts_loop]. rewrite Hfunc.
  apply Z.ltb_ge in Hge. rewrite Hge.
  destruct (Retry.is_rate_limit e); [done|]. by rewrite Hexc.
Qed.

Lemma calls_retry_step (a : Z) (d : F) (e : Retry.PyException)
    (events : list (Retry.Event (F := F))) :
  Retry.calls (Retry.Call a :: Retry.LogWarning d a e :: Retry.Sleep d :: events)
  = a :: Retry.calls events.
Proof. reflexivity. Qed.

Lemma sleeps_retry_step (a : Z) (d : F) (e : Retry.PyException)
    (events : list (Retry.Event (F := F))) :
  Retry.sleeps (Retry.Call a :: Retry.LogWarning d a e :: Retry.Sleep d :: events)
  = d :: Retry.sleeps events.
Proof. reflexivity. Qed.

Lemma attempts_loop_shape (n : nat) :
  ∀ a last_exception,
    a + Z.of_nat (S n) = max_retries + 1 →
    let events :=
      (Retry.attempts_loop fadd fmul of_int func max_retries backoff_factor
         (seqZ a (Z.of_nat (S n))) last_exception).1 in
    (1 ≤ length (Retry.calls events) ≤ S n)%nat
    ∧ Retry.calls events = seqZ a (Z.of_nat (length (Retry.calls events)))
    ∧ length (Retry.sleeps events) = pred (length (Retry.calls events)).
Proof.
  induction n as [|n IH]; intros a last_exception Ha.
  - change (seqZ a (Z.of_nat 1)) with [a]. cbn [Retry.attempts_loop].
    destruct (func a) as [e|r]; [|by cbn].
    assert ((a <? max_retries) = false) as -> by (apply Z.ltb_ge; lia).
    destruct (Retry.is_rate_limit e); [by cbn|].
    destruct (Retry.is_exception e); by cbn.
  - rewrite seqZ_cons by lia.
    replace (Z.pred (Z.of_nat (S (S n)))) with (Z.of_nat (S n)) by lia.
    destruct (func a) as [e|r] eqn:Hfunc.
    + destruct (Retry.is_exception e) eqn:Hexc.
      * destruct (Z.lt_ge_cases a 1024) as [Hsmall|Hlarge].
        -- destruct (get_delay_in_range a
                       (Retry.base_delay_after of_int (func a)) Hsmall)
             as [delay Hdelay].
           rewrite (attempts_loop_cons a _ _ e delay Hfunc Hexc) by (lia || done).
           cbn zeta. cbn [fst].
           specialize (IH (Z.succ a) (Some e)).
           destruct IH as (Hcalls & Hseq & Hsleeps); [lia|].
           set (events := (Retry.attempts_loop _ _ _ _ _ _ _ (Some e)).1) in *.
           rewrite calls_retry_step, sleeps_retry_step.
           cbn [length]. split_and!; [lia|lia| |lia].
           rewrite (seqZ_cons a) by lia.
           replace (Z.pred (Z.of_nat (S (length (Retry.calls events)))))
             with (Z.of_nat (length (Retry.calls events))) by lia.
           by f_equal.
        -- rewrite (attempts_loop_overflow a _ _ e Hfunc Hexc) by lia.
           cbn. split_and!; try done; lia.
      * cbn [Retry.attempts_loop]. rewrite Hfunc.
        destruct e; cbn in Hexc; try done.
        cbn. split_and!; try done; lia.
    + cbn [Retry.attempts_loop]. rewrite Hfunc.
      cbn. split_and!; try done; lia.
Qed.

Lemma attempts_loop_exhausted (n : nat) :
  ∀ a last_exception,
    a + Z.of_nat (S n) = max_retries + 1 →
    max_retries ≤ 1024 →
    (∀ b, a ≤ b ≤ max_retries →
       ∃ e, func b = inl e ∧ Retry.is_exception e = true) →
    ∃ e events,
      func max_retries = inl e
      ∧ Retry.attempts_loop fadd fmul of_int func max_retries backoff_factor
          (seqZ a (Z.of_nat (S n))) last_exception
        = (events, inl e)
      ∧ Retry.calls events = seqZ a (Z.of_nat (S n))
      ∧ map inr (Retry.sleeps events)
        = map (λ b, Retry.get_delay fadd fmul of_int b backoff_factor
                      (Retry.base_delay_after of_int (func b)))
            (seqZ a (Z.of_nat n)).
Proof.
  induction n as [|n IH]; intros a last_exception Ha Hmax Hfail.
  - assert (a = max_retries) as -> by lia.
    destruct (Hfail max_retries) as (e & Hfunc & Hexc); [lia|].
    exists e, [Retry.Call max_retries; Retry.LogError e].
    change (seqZ max_retries (Z.of_nat 1)) with [max_retries].
    split_and!; [done| |done|done].
    by apply attempts_loop_last.
  - destruct (Hfail a) as (e & Hfunc & Hexc); [lia|].
    destruct (IH (Z.succ a) (Some e)) as (e' & events & Hlast & Hloop & Hc & Hs);
      [lia|done|intros b Hb; apply Hfail; lia|].
    destruct (get_delay_in_range a (Retry.base_delay_after of_int (func a)))
      as [delay Hdelay]; [lia|].
    rewrite (seqZ_cons a (Z.of_nat (S (S n)))) by lia.
    replace (Z.pred (Z.of_nat (S (S n)))) with (Z.of_nat (S n)) by lia.
    rewrite (attempts_loop_cons a _ _ e delay Hfunc Hexc) by (lia || done).
    cbn zeta. rewrite Hloop. cbn [fst snd].
    eexists e', _. split_and!; [done|done| |].
    + by rewrite calls_retry_step, Hc.
    + rewrite (seqZ_cons a (Z.of_nat (S n))) by lia.
      replace (Z.pred (Z.of_nat (S n))) with (Z.of_nat n) by lia.
      rewrite sleeps_retry_step. cbn [map]. by rewrite Hs, Hdelay.
Qed.

Lemma attempts_loop_first_success (n : nat) (r : R) :
  ∀ a last_exception,
    0 ≤ a →
    a + Z.of_nat n ≤ max_retries →
    a + Z.of_nat n ≤ 1024 →
    (∀ b, a ≤ b < a + Z.of_nat n →
       ∃ e, func b = inl e ∧ Retry.is_exception e = true) →
    func (a + Z.of_nat n) = inr r →
    ∃ events,
      Retry.attempts_loop fadd fmul of_int func max_retries backoff_factor
        (seqZ a (max_retries + 1 - a)) last_exception
      = (events, inr r)
      ∧ Retry.calls events = seqZ a (Z.of_nat (S n))
      ∧ map inr (Retry.sleeps events)
        = map (λ b, Retry.get_delay fadd fmul of_int b backoff_factor
                      (Retry.base_delay_after of_int (func b)))
            (seqZ a (Z.of_nat n)).
Proof.
  induction n as [|n IH]; intros a last_exception Ha Hk Hsmall Hfail Hok.
  - rewrite Z.add_0_r in Hok. rewrite seqZ_cons by lia.
    cbn [Retry.attempts_loop]. rewrite Hok.
    by exists [Retry.Call a].
  - destruct (Hfail a) as (e & Hfunc & Hexc); [lia|].
    destruct (IH (Z.succ a) (Some e)) as (events & Hloop & Hc & Hs).
    + lia.
    + lia.
    + lia.
    + intros b Hb. apply Hfail. lia.
    + by replace (Z.succ a + Z.of_nat n) with (a + Z.of_nat (S n)) by lia.
    + destruct (get_delay_in_range a (Retry.base_delay_after of_int (func a)))
        as [delay Hdelay]; [lia|].
      rewrite (seqZ_cons a (max_retries + 1 - a)) by lia.
      replace (Z.pred (max_retries + 1 - a))
        with (max_retries + 1 - Z.succ a) by lia.
      rewrite (attempts_loop_cons a _ _ e delay Hfunc Hexc) by (lia || done).
      cbn zeta. rewrite Hloop. cbn [fst snd].
      eexists. split_and!; [done| |].
      * rewrite (seqZ_cons a (Z.of_nat (S (S n)))) by lia.
        replace (Z.pred (Z.of_nat (S (S n)))) with (Z.of_nat (S n)) by lia.
        by rewrite calls_retry_step, Hc.
      * rewrite (seqZ_cons a (Z.of_nat (S n))) by lia.
        replace (Z.pred (Z.of_nat (S n))) with (Z.of_nat n) by lia.
        rewrite sleeps_retry_step. cbn [map]. by rewrite Hs, Hdelay.
Qed.

Lemma attempts_loop_until_overflow (n : nat) :
  ∀ a last_exception,
    0 ≤ a →
    a + Z.of_nat n = 1024 →
    1024 < max_retries →
    (∀ b, a ≤ b ≤ 1024 →
       ∃ e, func b = inl e ∧ Retry.is_exception e = true) →
    ∃ events,
      Retry.attempts_loop fadd fmul of_int func max_retries backoff_factor
        (seqZ a (max_retries + 1 - a)) last_exception
      = (events,
         inl (Retry.OverflowError (lit "int too large to convert to float")))
      ∧ Retry.calls events = seqZ a (Z.of_nat (S n))
      ∧ length (Retry.sleeps events) = n.
Proof.
  induction n as [|n IH]; intros a last_exception Ha Hn Hmax Hfail.
  - destruct (Hfail a) as (e & Hfunc & Hexc); [lia|].
    rewrite seqZ_cons by lia.
    rewrite (attempts_loop_overflow a _ _ e Hfunc Hexc) by lia.
    by eexists.
  - destruct (Hfail a) as (e & Hfunc & Hexc); [lia|].
    destruct (IH (Z.succ a) (Some e)) as (events & Hloop & Hc & Hs);
      [lia|lia|done|intros b Hb; apply Hfail; lia|].
    destruct (get_delay_in_range a (Retry.base_delay_after of_int (func a)))
      as [delay Hdelay]; [lia|].
    rewrite (seqZ_cons a (max_retries + 1 - a)) by lia.
    replace (Z.pred (max_retries + 1 - a))
      with (max_retries + 1 - Z.succ a) by lia.
    rewrite (attempts_loop_cons a _ _ e delay Hfunc Hexc) by (lia || done).
    cbn zeta. rewrite Hloop. cbn [fst snd].
    eexists. split_and!; [done| |].
    + rewrite (seqZ_cons a (Z.of_nat (S (S n)))) by lia.
      replace (Z.pred (Z.of_nat (S (S n)))) with (Z.of_nat (S n)) by lia.
      by rewrite calls_retry_step, Hc.
    + rewrite sleeps_retry_step. cbn [length]. by rewrite Hs.
Qed.

End retry_properties.

(** X13. When every attempt fails with an exception, and there are at
    most 1024 retries, the wrapper of [with_retry] calls the function
    [max_retries + 1] times, sleeps after each failure but the last, for
    the delay [get_delay] gives for that attempt (from a base of 5 after
    a rate limit, of 0 otherwise), and raises the exception of the last
    attempt. *)
Theorem with_retry_raises_last_failure {F R : Type} (fadd fmul : F → F → F)
    (of_int : Z → F) (func : Z → Retry.PyException + R) (max_retries : Z)
    (backoff_factor : F) :
  (0 ≤ max_retries ≤ 1024)%Z →
  (∀ b, (0 ≤ b ≤ max_retries)%Z →
     ∃ e, func b = inl e ∧ Retry.is_exception e = true) →
  ∃ e events,
    func max_retries = inl e
    ∧ Retry.wrapper fadd fmul of_int max_retries backoff_factor func
      = (events, inl e)
    ∧ Retry.calls events = seqZ 0%Z (max_retries + 1)%Z
    ∧ map inr (Retry.sleeps events)
      = map (λ b, Retry.get_delay fadd fmul of_int b backoff_factor
                    (Retry.base_delay_after of_int (func b)))
          (seqZ 0%Z max_retries).
Proof.
  intros Hmax Hfail. unfold Retry.wrapper.
  destruct (attempts_loop_exhausted fadd fmul of_int func max_retries
              backoff_factor (Z.to_nat max_retries) 0%Z None)
    as (e & events & Hlast & Hloop & Hcalls & Hsleeps); [lia|lia|done|].
  replace (Z.of_nat (S (Z.to_nat max_retries))) with (max_retries + 1)%Z
    in * by lia.
  rewrite Z2Nat.id in Hsleeps by lia.
  by exists e, events.
Qed.

(** X14. When the attempts before the [k]-th fail with an exception and
    the [k]-th succeeds, [k] being at most [max_retries] and at most
    1024, the wrapper returns that result after [k + 1] calls and [k]
    sleeps, one after each failure. *)
Theorem with_retry_returns_first_success {F R : Type} (fadd fmul : F → F → F)
    (of_int : Z → F) (func : Z → Retry.PyException + R) (max_retries : Z)
    (backoff_factor : F) (k : Z) (r : R) :
  (0 ≤ k ≤ max_retries)%Z →
  (k ≤ 1024)%Z →
  (∀ b, (0 ≤ b < k)%Z →
     ∃ e, func b = inl e ∧ Retry.is_exception e = true) →
  func k = inr r →
  ∃ events,
    Retry.wrapper fadd fmul of_int max_retries backoff_factor func
    = (events, inr r)
    ∧ Retry.calls events = seqZ 0%Z (k + 1)%Z
    ∧ map inr (Retry.sleeps events)
      = map (λ b, Retry.get_delay fadd fmul of_int b backoff_factor
                    (Retry.base_delay_after of_int (func b)))
          (seqZ 0%Z k).
Proof.
  intros Hk Hsmall Hfail Hok. unfold Retry.wrapper.
  destruct (attempts_loop_first_success fadd fmul of_int func max_retries
              backoff_factor (Z.to_nat k) r 0%Z None)
    as (events & Hloop & Hcalls & Hsleeps).
  - done.
  - lia.
  - lia.
  - intros b Hb. apply Hfail. lia.
  - by rewrite Z.add_0_l, Z2Nat.id by lia.
  - rewrite Z.sub_0_r in Hloop.
    replace (Z.of_nat (S (Z.to_nat k))) with (k + 1)%Z in Hcalls by lia.
    rewrite Z2Nat.id in Hsleeps by lia.
    by exists events.
Qed.

(** X15. Whatever the function does, the wrapper calls it at most
    [max_retries + 1] times, at the attempts 0, 1, 2, ... in turn, and
    sleeps once between two calls, never after the last; with a negative
    [max_retries] it does not call it at all and raises [RuntimeError]. *)
Theorem with_retry_bounds_the_calls {F R : Type} (fadd fmul : F → F → F)
    (of_int : Z → F) (func : Z → Retry.PyException + R) (max_retries : Z)
    (backoff_factor : F) :
  ((max_retries < 0)%Z →
   Retry.wrapper fadd fmul of_int max_retries backoff_factor func
   = ([], inl (Retry.RuntimeError
                 (lit "Unknown error occurred after retries"))))
  ∧ ((0 ≤ max_retries)%Z →
     let events :=
       (Retry.wrapper fadd fmul of_int max_retries backoff_factor func).1 in
     (1 ≤ length (Retry.calls events) ≤ Z.to_nat (max_retries + 1))%nat
     ∧ Retry.calls events = seqZ 0%Z (Z.of_nat (length (Retry.calls events)))
     ∧ length (Retry.sleeps events) = pred (length (Retry.calls events))).
Proof.
  unfold Retry.wrapper. split.
  - intros Hneg. by rewrite seqZ_nil by lia.
  - intros Hmax.
    pose proof (attempts_loop_shape fadd fmul of_int func max_retries
                  backoff_factor (Z.to_nat max_retries) 0%Z None) as Hshape.
    replace (Z.of_nat (S (Z.to_nat max_retries))) with (max_retries + 1)%Z
      in Hshape by lia.
    replace (Z.to_nat (max_retries + 1)) with (S (Z.to_nat max_retries))
      by lia.
    apply Hshape. lia.
Qed.

(** X16. [BaseHTTPClient.get] on a client that was not entered, with at
    most 1024 retries: the request is never sent, whatever the transport
    would do, yet the [RuntimeError] is retried like a failed request,
    with [max_retries] sleeps, before it is raised. *)
Theorem get_without_client_retries {F : Type} (fadd fmul : F → F → F)
    (of_int : Z → F) (max_retries : Z) (backoff_factor : F)
    (raise_for_status : Z → option str) (replies : Z → Retry.Transport) :
  (0 ≤ max_retries ≤ 1024)%Z →
  ∃ events,
    Retry.get fadd fmul of_int max_retries backoff_factor false
      raise_for_status replies
    = (events,
       inl (Retry.RuntimeError
              (lit "Client is not initialized. Use 'async with' to create the client.")))
    ∧ Retry.calls events = seqZ 0%Z (max_retries + 1)%Z
    ∧ map inr (Retry.sleeps events)
      = map (λ b, Retry.get_delay fadd fmul of_int b backoff_factor (of_int 0%Z))
          (seqZ 0%Z max_retries).
Proof.
  intros Hmax. unfold Retry.get.
  destruct (attempts_loop_exhausted fadd fmul of_int
              (λ attempt,
                 Retry.get_body false raise_for_status (replies attempt))
              max_retries backoff_factor (Z.to_nat max_retries) 0%Z None)
    as (e & events & Hlast & Hloop & Hcalls & Hsleeps).
  - lia.
  - lia.
  - intros b Hb. by eexists.
  - replace (Z.of_nat (S (Z.to_nat max_retries))) with (max_retries + 1)%Z
      in * by lia.
    rewrite Z2Nat.id in Hsleeps by lia.
    injection Hlast as <-. by exists events.
Qed.

(** X17. [BaseHTTPClient.get] when every reply has the status 429, with
    at most 1024 retries: the request is sent [max_retries + 1] times,
    each failure but the last is followed by a sleep of [get_delay] from
    the base of 5, and [RateLimitError] is raised. *)
Theorem get_rate_limited_gives_up {F : Type} (fadd fmul : F → F → F)
    (of_int : Z → F) (max_retries : Z) (backoff_factor : F)
    (raise_for_status : Z → option str) (replies : Z → Retry.Transport) :
  (0 ≤ max_retries ≤ 1024)%Z →
  (∀ b, (0 ≤ b ≤ max_retries)%Z →
     ∃ content, replies b = Retry.Responded 429%Z content) →
  ∃ events,
    Retry.get fadd fmul of_int max_retries backoff_factor true
      raise_for_status replies
    = (events, inl (Retry.RateLimitError (lit "Rate limit exceeded")))
    ∧ Retry.calls events = seqZ 0%Z (max_retries + 1)%Z
    ∧ map inr (Retry.sleeps events)
      = map (λ b, Retry.get_delay fadd fmul of_int b backoff_factor (of_int 5%Z))
          (seqZ 0%Z max_retries).
Proof.
  intros Hmax Hlimited. unfold Retry.get.
  destruct (attempts_loop_exhausted fadd fmul of_int
              (λ attempt,
                 Retry.get_body true raise_for_status (replies attempt))
              max_retries backoff_factor (Z.to_nat max_retries) 0%Z None)
    as (e & events & Hlast & Hloop & Hcalls & Hsleeps).
  - lia.
  - lia.
  - intros b Hb. destruct (Hlimited b) as [content ->]; [lia|]. by eexists.
  - replace (Z.of_nat (S (Z.to_nat max_retries))) with (max_retries + 1)%Z
      in * by lia.
    rewrite Z2Nat.id in Hsleeps by lia.
    destruct (Hlimited max_retries) as [content Hreply]; [lia|].
    rewrite Hreply in Hlast. injection Hlast as <-.
    exists events. split_and!; [done|done|].
    rewrite Hsleeps. apply map_ext_in. intros b Hb%list_elem_of_In.
    apply elem_of_seqZ in Hb.
    destruct (Hlimited b) as [content' ->]; [lia|]. done.
Qed.

(** X25. With more than 1024 retries, when the first 1025 attempts fail
    with an exception, the wrapper never makes the later ones: after
    1025 calls and 1024 sleeps, [get_delay] raises [OverflowError] for
    the attempt 1024, and that is what the wrapper raises, not the
    exception of the function. *)
Theorem with_retry_overflows {F R : Type} (fadd fmul : F → F → F)
    (of_int : Z → F) (func : Z → Retry.PyException + R) (max_retries : Z)
    (backoff_factor : F) :
  (1024 < max_retries)%Z →
  (∀ b, (0 ≤ b ≤ 1024)%Z →
     ∃ e, func b = inl e ∧ Retry.is_exception e = true) →
  ∃ events,
    Retry.wrapper fadd fmul of_int max_retries backoff_factor func
    = (events,
       inl (Retry.OverflowError (lit "int too large to convert to float")))
    ∧ Retry.calls events = seqZ 0%Z 1025%Z
    ∧ length (Retry.sleeps events) = 1024%nat.
Proof.
  intros Hmax Hfail. unfold Retry.wrapper.
  destruct (attempts_loop_until_overflow fadd fmul of_int func max_retries
              backoff_factor 1024 0%Z None)
    as (events & Hloop & Hcalls & Hsleeps); [lia|lia|done|done|].
  rewrite Z.sub_0_r in Hloop. exists events.
  split_and!; [done| |done].
  rewrite Hcalls. f_equal.
Qed.

Lemma with_retry_raises_last_failure_witness :
  ∃ events,
    Retry.wrapper QArith_base.Qplus QArith_base.Qmult QArith_base.inject_Z 2
      (QArith_base.Qmake 1 2)
      (λ _ : Z, inl (Retry.OtherException (lit "boom")) : Retry.PyException + Z)
    = (events, inl (Retry.OtherException (lit "boom")))
    ∧ Retry.calls events = [0; 1; 2]%Z.
Proof.
  destruct (with_retry_raises_last_failure QArith_base.Qplus QArith_base.Qmult
              QArith_base.inject_Z
              (λ _ : Z, inl (Retry.OtherException (lit "boom"))
                        : Retry.PyException + Z)
              2 (QArith_base.Qmake 1 2))
    as (e & events & Hlast & Hwrap & Hcalls & _).
  - lia.
  - intros b Hb. eexists. split; reflexivity.
  - exists events. injection Hlast as <-. split; [exact Hwrap|exact Hcalls].
Defined.

Lemma with_retry_returns_first_success_witness :
  ∃ events,
    Retry.wrapper QArith_base.Qplus QArith_base.Qmult QArith_base.inject_Z 3
      (QArith_base.Qmake 1 2)
      (λ attempt : Z,
         if (attempt <? 1)%Z
         then inl (Retry.RateLimitError (lit "Rate limit exceeded"))
         else inr 200%Z)
    = (events, inr 200%Z)
    ∧ Retry.calls events = [0; 1]%Z
    ∧ length (Retry.sleeps events) = 1%nat.
Proof.
  destruct (with_retry_returns_first_success QArith_base.Qplus
              QArith_base.Qmult QArith_base.inject_Z
              (λ attempt : Z,
                 if (attempt <? 1)%Z
                 then inl (Retry.RateLimitError (lit "Rate limit exceeded"))
                 else inr 200%Z)
              3 (QArith_base.Qmake 1 2) 1 200%Z)
    as (events & Hwrap & Hcalls & Hsleeps).
  - lia.
  - lia.
  - intros b Hb. assert (b = 0%Z) as -> by lia. eexists. split; reflexivity.
  - reflexivity.
  - exists events. split; [exact Hwrap|]. split; [exact Hcalls|].
    apply (f_equal length) in Hsleeps. rewrite !length_map in Hsleeps.
    exact Hsleeps.
Defined.

Lemma get_without_client_retries_witness :
  ∃ events,
    Retry.get QArith_base.Qplus QArith_base.Qmult QArith_base.inject_Z 1
      (QArith_base.Qmake 1 2) false (λ _, None)
      (λ _, Retry.Responded 200 [])
    = (events,
       inl (Retry.RuntimeError
              (lit "Client is not initialized. Use 'async with' to create the client.")))
    ∧ Retry.calls events = [0; 1]%Z.
Proof.
  destruct (get_without_client_retries QArith_base.Qplus QArith_base.Qmult
              QArith_base.inject_Z 1 (QArith_base.Qmake 1 2) (λ _, None)
              (λ _, Retry.Responded 200 []))
    as (events & Hget & Hcalls & _); [lia|].
  exists events. split; [exact Hget|exact Hcalls].
Defined.

Lemma get_rate_limited_gives_up_witness :
  ∃ events,
    Retry.get QArith_base.Qplus QArith_base.Qmult QArith_base.inject_Z 1
      (QArith_base.Qmake 1 2) true (λ _, None)
      (λ _, Retry.Responded 429 [])
    = (events, inl (Retry.RateLimitError (lit "Rate limit exceeded")))
    ∧ Retry.sleeps events
      = [QArith_base.Qplus (QArith_base.inject_Z 5)
           (QArith_base.Qmult (QArith_base.Qmake 1 2)
              (QArith_base.inject_Z 1))].
Proof.
  destruct (get_rate_limited_gives_up QArith_base.Qplus QArith_base.Qmult
              QArith_base.inject_Z 1 (QArith_base.Qmake 1 2) (λ _, None)
              (λ _, Retry.Responded 429 []))
    as (events & Hget & _ & Hsleeps).
  - lia.
  - intros b Hb. by exists [].
  - exists events. split; [exact Hget|].
    destruct (Retry.sleeps events) as [|d [|d' ds]]; try discriminate Hsleeps.
    vm_compute in Hsleeps. injection Hsleeps as ->. reflexivity.
Defined.

Lemma with_retry_bounds_the_calls_witness :
  Retry.wrapper QArith_base.Qplus QArith_base.Qmult QArith_base.inject_Z (-1)
    (QArith_base.Qmake 1 2) (λ _ : Z, inr 200%Z : Retry.PyException + Z)
  = ([], inl (Retry.RuntimeError (lit "Unknown error occurred after retries"))).
Proof.
  apply (proj1 (with_retry_bounds_the_calls QArith_base.Qplus QArith_base.Qmult
                  QArith_base.inject_Z
                  (λ _ : Z, inr 200%Z : Retry.PyException + Z) (-1)
                  (QArith_base.Qmake 1 2))).
  lia.
Defined.

Lemma with_retry_overflows_witness :
  ∃ events,
    Retry.wrapper QArith_base.Qplus QArith_base.Qmult QArith_base.inject_Z 2000
      (QArith_base.Qmake 1 2)
      (λ _ : Z, inl (Retry.APIError (lit "Request failed: timeout"))
                : Retry.PyException + Z)
    = (events,
       inl (Retry.OverflowError (lit "int too large to convert to float")))
    ∧ length (Retry.sleeps events) = 1024%nat.
Proof.
  destruct (with_retry_overflows QArith_base.Qplus QArith_base.Qmult
              QArith_base.inject_Z
              (λ _ : Z, inl (Retry.APIError (lit "Request failed: timeout"))
                        : Retry.PyException + Z)
              2000 (QArith_base.Qmake 1 2))
    as (events & Hwrap & _ & Hsleeps).
  - lia.
  - intros b Hb. eexists. split; reflexivity.
  - exists events. split; [exact Hwrap|exact Hsleeps].
Defined.

(** * The file cache *)

Section cache_properties.

Context {V : Type} (md5_hexdigest : str → str).
Context (cache_dir key : str).

Local Open Scope Z_scope.

Lemma cache_get_pickled (st : Cache.State (V := V)) (data : Cache.PickleData) :
  Cache.files st !! Cache._get_cache_path md5_hexdigest cache_dir key
  = Some (Cache.Pickled data) →
  Cache.get md5_hexdigest true cache_dir key st
  = if readings (Cache.world st) (position (Cache.world st))
       >? Cache.expires_at data
    then (inr None,
          Cache.mkState
            (delete (Cache._get_cache_path md5_hexdigest cache_dir key)
               (Cache.files st))
            (Cache.read_clock (Cache.world st)).2
            (Cache.log st ++ [Cache.CacheExpired (take 50 key)]))
    else (inr (Cache.value data),
          Cache.mkState (Cache.files st) (Cache.read_clock (Cache.world st)).2
            (Cache.log st ++ [Cache.CacheHit (take 50 key)])).
Proof. intros Hfile. unfold Cache.get. cbn [negb]. by rewrite Hfile. Qed.

Lemma cache_get_missing (st : Cache.State (V := V)) :
  Cache.files st !! Cache._get_cache_path md5_hexdigest cache_dir key = None →
  Cache.get md5_hexdigest true cache_dir key st = (inr None, st).
Proof. intros Hfile. unfold Cache.get. cbn [negb]. by rewrite Hfile. Qed.


Lemma expiry_too_long (now ttl : Z) :
  86400 * 1000000000 ≤ ttl → Cache.expiry now ttl = None.
Proof.
  intros Hlong. unfold Cache.expiry, Cache.timedelta.
  assert (1000000000 ≤ ttl / 86400) as Hdays
    by (apply Z.div_le_lower_bound; lia).
  rewrite (proj2 (Z.leb_gt _ _)); [done|]. lia.
Qed.

End cache_properties.



(** X23. When writing the file fails with a [PicklingError] or an
    [OSError], the expiry being a date that [datetime] can hold and the
    unlink of the handler going through, [set] raises [RuntimeError] and
    no file is left for the key, not even the entry that was there
    before: the next [get] of the key is a miss. *)
Theorem cache_failed_write_drops_entry {V : Type} (md5_hexdigest : str → str)
    (cache_dir key : str) (value : option V) (ttl expires : Z)
    (dump : Cache.Dump) (st : Cache.State (V := V)) :
  dump = Cache.RaisedPicklingError Cache.Unlinked
  ∨ dump = Cache.RaisedOSError Cache.Unlinked →
  Cache.expiry (readings (Cache.world st) (position (Cache.world st))) ttl
  = Some expires →
  let failed := Cache.set md5_hexdigest true cache_dir key value ttl dump st in
  failed.1
  = inl (Cache.RuntimeError
           (lit "Failed to write cache for key " ++ take 50 key))
  ∧ Cache.files failed.2 !! Cache._get_cache_path md5_hexdigest cache_dir key
    = None
  ∧ Cache.get md5_hexdigest true cache_dir key failed.2 = (inr None, failed.2).
Proof.
  intros Hdump Hexpiry failed.
  assert (failed.1
          = inl (Cache.RuntimeError
                   (lit "Failed to write cache for key " ++ take 50 key))
          ∧ Cache.files failed.2
            = delete (Cache._get_cache_path md5_hexdigest cache_dir key)
                (Cache.files st)) as [Hraised Hfiles].
  { unfold failed, Cache.set. cbn [negb Cache.read_clock]. rewrite Hexpiry.
    by destruct Hdump as [-> | ->]. }
  assert (Cache.files failed.2
            !! Cache._get_cache_path md5_hexdigest cache_dir key = None)
    as Hgone by (rewrite Hfiles; apply lookup_delete_eq).
  split_and!; [done|done|].
  by apply cache_get_missing.
Qed.

Lemma cache_failed_write_drops_entry_witness :
  let empty := Cache.mkState (V := Z) ∅ (mkWorld (λ _, 1000%Z) 0) [] in
  let written :=
    (Cache.set (λ k, k) true (lit ".cache") (lit "get_thing:1") (Some 7%Z) 3600
       Cache.Dumped empty).2 in
  let failed :=
    Cache.set (λ k, k) true (lit ".cache") (lit "get_thing:1") (Some 8%Z) 3600
      (Cache.RaisedOSError Cache.Unlinked) written in
  (Cache.get (λ k, k) true (lit ".cache") (lit "get_thing:1") failed.2).1
  = inr None.
Proof.
  intros empty written failed.
  destruct (cache_failed_write_drops_entry (λ k, k) (lit ".cache")
              (lit "get_thing:1") (Some 8%Z) 3600 3600001000
              (Cache.RaisedOSError Cache.Unlinked) written)
    as (_ & _ & Hget); [by right|reflexivity|].
  fold failed in Hget. by rewrite Hget.
Defined.

(** X24. The wrapper of [cached_request] serves a stored result that is
    not [None] and has not expired without calling the function; a
    stored [None] is never served: the function is called again and its
    outcome is what the call gives. *)
Theorem cached_request_serves_stored_result {V : Type}
    (md5_hexdigest : str → str) (cache_dir : str) (ttl : Z) (cache_key : str)
    (func : Cache.Raised + option V) (dump : Cache.Dump)
    (st : Cache.State (V := V)) (data : Cache.PickleData) :
  Cache.files st !! Cache._get_cache_path md5_hexdigest cache_dir cache_key
  = Some (Cache.Pickled data) →
  (readings (Cache.world st) (position (Cache.world st))
   ≤ Cache.expires_at data)%Z →
  let call := Cache.cached_request md5_hexdigest true cache_dir ttl cache_key
                func dump st in
  (∀ v, Cache.value data = Some v → call.1 = (inr (Some v), false))
  ∧ (Cache.value data = None →
     call.1.2 = true
     ∧ ∀ err, func = inl err → call.1.1 = inl err).
Proof.
  intros Hfile Hfresh call. unfold call, Cache.cached_request.
  rewrite (cache_get_pickled _ _ _ _ _ Hfile).
  rewrite Z.gtb_ltb, (proj2 (Z.ltb_ge _ _) Hfresh). split.
  - by intros v ->.
  - intros ->. destruct func as [err|result].
    + split; [done|]. by intros ? [= <-].
    + split; [|done].
      by destruct (Cache.set _ _ _ _ _ _ _ _) as [[?|?] ?].
Qed.

Lemma cached_request_serves_stored_result_witness :
  let empty := Cache.mkState (V := Z) ∅ (mkWorld (λ _, 1000%Z) 0) [] in
  let written :=
    (Cache.set (λ k, k) true (lit ".cache") (lit "get_thing:1") (Some 7%Z) 3600
       Cache.Dumped empty).2 in
  (Cache.cached_request (λ k, k) true (lit ".cache") 3600 (lit "get_thing:1")
     (inl (Cache.Uncaught (lit "not called"))) Cache.Dumped written).1
  = (inr (Some 7%Z), false).
Proof.
  intros empty written.
  destruct (cached_request_serves_stored_result (λ k, k) (lit ".cache") 3600
              (lit "get_thing:1") (inl (Cache.Uncaught (lit "not called")))
              Cache.Dumped written
              (Cache.mkPickleData (Some 7%Z) 3600001000 1000))
    as [Hserved _].
  - reflexivity.
  - vm_compute. discriminate.
  - by apply Hserved.
Defined.

(** X27. With a [ttl] of 86400000000000 seconds or more, the wrapper of
    [cached_request] cannot store what the function returns: on a miss
    it calls the function, and then [set] raises [OverflowError] before
    it writes anything, so that the call raises although the function
    returned, and the next call finds no entry again. *)
Theorem cached_request_ttl_too_long {V : Type} (md5_hexdigest : str → str)
    (cache_dir : str) (ttl : Z) (cache_key : str) (result : option V)
    (dump : Cache.Dump) (st : Cache.State (V := V)) :
  (86400 * 1000000000 ≤ ttl)%Z →
  Cache.files st !! Cache._get_cache_path md5_hexdigest cache_dir cache_key
  = None →
  let call := Cache.cached_request md5_hexdigest true cache_dir ttl cache_key
                (inr result) dump st in
  call.1 = (inl Cache.OverflowError, true)
  ∧ Cache.files call.2 = Cache.files st
  ∧ Cache.log call.2 = Cache.log st.
Proof.
  intros Hlong Hmiss call. unfold call, Cache.cached_request.
  rewrite (cache_get_missing _ _ _ _ Hmiss).
  unfold Cache.set. cbn [negb Cache.read_clock].
  by rewrite expiry_too_long.
Qed.

Lemma cached_request_ttl_too_long_witness :
  (Cache.cached_request (V := Z) (λ k, k) true (lit ".cache") (10 ^ 14)
     (lit "get_thing:1") (inr (Some 7%Z)) Cache.Dumped
     (Cache.mkState ∅ (mkWorld (λ _, 1000%Z) 0) [])).1
  = (inl Cache.OverflowError, true).
Proof.
  apply (cached_request_ttl_too_long (λ k, k) (lit ".cache") (10 ^ 14)
           (lit "get_thing:1") (Some 7%Z) Cache.Dumped
           (Cache.mkState ∅ (mkWorld (λ _, 1000%Z) 0) [])).
  - vm_compute. discriminate.
  - reflexivity.
Defined.
